(** * Ray tracing through lens planes: a shallow embedding of
      [src/analysis/ray_tracing.py] (classes [Tracer], [MultiTracer], [Plane]).

    The module is Python 3; its values are embedded as follows.
    - A float is a rational number ([Q]); [==] is [Qeq_bool], [<] is
      [Qlt_bool].  A value that may be [None] is an [option].
    - An attribute that [__init__] sets only on some paths is an [option]
      field: [None] means the attribute does not exist on the object.
    - A call that may raise returns a [result]; the exception is a value.
    - The masked-image, grid, galaxy, pixelization and cosmology classes are
      collaborators whose code is not part of the sources at hand.  The
      cosmology is astropy's: its methods raise [TypeError] on the redshift
      [None].  Their
      methods are fields of the classes [ExternalTypes] and [ExternalMethods],
      except for the one method whose arithmetic the specification fixes
      ([traced_masked_image_for_deflections]). *)

From Stdlib Require Import String.
From Stdlib Require Import List Bool Arith Lia.
From Stdlib Require Import QArith Qfield Sorted Permutation.
Import ListNotations.

Local Open Scope Q_scope.

(** ** Exceptions and the error monad *)

Inductive exception : Type :=
| RayTracingException (msg : string)
| PixelizationException (msg : string)
| IndexError
| TypeError
| AttributeError.

Inductive result (A : Type) : Type :=
| Ok (a : A)
| Err (e : exception).

Arguments Ok {A} a.
Arguments Err {A} e.

Definition bind {A B : Type} (r : result A) (k : A -> result B) : result B :=
  match r with
  | Ok a => k a
  | Err e => Err e
  end.

Notation "x <- r ;; k" := (bind r (fun x => k))
  (at level 61, r at next level, right associativity).

Definition is_ok {A : Type} (r : result A) : bool :=
  match r with Ok _ => true | Err _ => false end.

(** ** Python built-ins used by the module *)

(** [l[i]] for a non-negative index. *)
Definition index {A : Type} (l : list A) (i : nat) : result A :=
  match nth_error l i with
  | Some a => Ok a
  | None => Err IndexError
  end.

Definition Qlt_bool (x y : Q) : bool := negb (Qle_bool y x).

(** [a < b] on redshifts: ordering is defined between two floats only;
    with [None] on either side Python 3 raises [TypeError]. *)
Definition py_lt (a b : option Q) : result bool :=
  match a, b with
  | Some x, Some y => Ok (Qlt_bool x y)
  | _, _ => Err TypeError
  end.

(** [a == b] on redshifts. *)
Definition py_eq (a b : option Q) : bool :=
  match a, b with
  | Some x, Some y => Qeq_bool x y
  | None, None => true
  | _, _ => false
  end.

(** [x in l]. *)
Definition py_in (x : option Q) (l : list (option Q)) : bool :=
  existsb (py_eq x) l.

(** [enumerate(l)]. *)
Definition enumerate {A : Type} (l : list A) : list (nat * A) :=
  combine (seq 0 (length l)) l.

(** [filter(None, l)] on a list of objects-or-[None]: objects are truthy. *)
Fixpoint filter_None {A : Type} (l : list (option A)) : list A :=
  match l with
  | [] => []
  | Some a :: l' => a :: filter_None l'
  | None :: l' => filter_None l'
  end.

(** [sorted(l, key=key, reverse=False)]: a stable sort that orders the keys
    with [<] alone.  It is written as an insertion sort; an element is placed
    in front of the first element whose key is not smaller, so that elements
    with equal keys keep their input order.  Every element of a list of two or
    more takes part in a comparison, hence a [None] key raises. *)
Fixpoint insert_by {A : Type} (key : A -> option Q) (x : A) (l : list A)
  : result (list A) :=
  match l with
  | [] => Ok [x]
  | y :: l' =>
      b <- py_lt (key y) (key x) ;;
      if b then (r <- insert_by key x l' ;; Ok (y :: r))
      else Ok (x :: y :: l')
  end.

Fixpoint sorted {A : Type} (key : A -> option Q) (l : list A)
  : result (list A) :=
  match l with
  | [] => Ok []
  | x :: l' => s <- sorted key l' ;; insert_by key x s
  end.

(** ** Grids *)

Definition point : Type := (Q * Q)%type.
Definition grid : Type := list point.

(** The collection of grids a plane works on: [masked_image.image],
    [masked_image.sub] and [masked_image.blurring]. *)
Record MaskedImage : Type := {
  image : grid;
  sub : grid;
  blurring : grid
}.

Definition point_sub (p d : point) : point :=
  (fst p - fst d, snd p - snd d).

Definition grid_sub (g d : grid) : grid :=
  map (fun pd => point_sub (fst pd) (snd pd)) (combine g d).

(** Modelled from the spec: [traced_masked_image_for_deflections] is a method
    of the masked-image class, which is missing from the sources.  Following
    the propagation step of the specification, every point category is
    displaced independently,
    [next_grid_point = current_grid_point - deflection_at_point]. *)
Definition traced_masked_image_for_deflections
  (masked_image deflections : MaskedImage) : MaskedImage :=
  {| image := grid_sub (image masked_image) (image deflections);
     sub := grid_sub (sub masked_image) (sub deflections);
     blurring := grid_sub (blurring masked_image) (blurring deflections) |}.

(** Element-wise [+] of two one-dimensional arrays of the same shape. *)
Definition array_add (a b : list Q) : list Q :=
  map (fun xy => fst xy + snd xy) (combine a b).

(** The sum of a non-empty sequence of arrays, left to right. *)
Definition sum_arrays (l : list (list Q)) : list Q :=
  match l with
  | [] => []
  | a :: l' => fold_left array_add l' a
  end.

(** ** Collaborators *)

Class ExternalTypes : Type := {
  Pixelization : Type;
  Mapping : Type;
  Inversion : Type
}.

(** The cosmology object handed to the constructors.  The distances are
    taken after their conversion [.to('kpc')].  The fields give the value of
    a method at the redshifts it is called with; a call goes through
    [at_redshift] or [between_redshifts]. *)
Record Cosmology : Type := {
  arcsec_per_kpc_proper : option Q -> Q;
  angular_diameter_distance : option Q -> Q;
  angular_diameter_distance_z1z2 : option Q -> option Q -> Q
}.

(** A call [method(z)] of the cosmology: the provider computes with the
    redshift and raises [TypeError] when it is [None]. *)
Definition at_redshift (method : option Q -> Q) (z : option Q) : result Q :=
  match z with
  | Some _ => Ok (method z)
  | None => Err TypeError
  end.

(** A call [method(z1, z2)] of the cosmology. *)
Definition between_redshifts (method : option Q -> option Q -> Q)
  (z1 z2 : option Q) : result Q :=
  match z1, z2 with
  | Some _, Some _ => Ok (method z1 z2)
  | _, _ => Err TypeError
  end.

Section Model.

Context {T : ExternalTypes}.

(** Modelled from the spec: the galaxy class is missing from the sources.
    The module reads [galaxy.redshift], [galaxy.has_pixelization] and
    [galaxy.pixelization]; following the data model of the specification a
    galaxy has an optional redshift and an optional pixelization, and
    [has_pixelization] is the capability query on the latter.  [galaxy_id]
    stands for the identity of the Python object. *)
Record Galaxy : Type := {
  galaxy_id : nat;
  redshift : option Q;
  pixelization : option Pixelization
}.

Definition has_pixelization (g : Galaxy) : bool :=
  match pixelization g with
  | Some _ => true
  | None => false
  end.

(** Methods of the masked-image, grid and pixelization classes, and the
    constants of [astropy.constants] and [math], as the module uses them. *)
Class ExternalMethods : Type := {
  deflection_masked_image_for_galaxies :
    MaskedImage -> list Galaxy -> MaskedImage;
  sub_intensities_via_grid : grid -> list Galaxy -> Mapping -> list Q;
  blurring_intensities_via_grid : grid -> list Galaxy -> list Q;
  inversion_from_pix_masked_image :
    Pixelization -> grid -> grid -> Mapping -> Inversion;
  c_kpc_per_s : Q;
  G_kpc3_per_Msun_s2 : Q;
  math_pi : Q
}.

Context {M : ExternalMethods}.

(** ** [Plane] *)

Record Plane : Type := {
  arcsec_per_kpc : option Q;
  kpc_per_arcsec : option Q;
  ang_to_earth_kpc : option Q;
  ang_to_previous_plane_kpc : option Q;
  ang_to_next_plane_kpc : option Q;
  ang_next_plane_to_earth_kpc : option Q;
  critical_density_kpc : option Q;
  critical_density_arcsec : option Q;
  galaxies : list Galaxy;
  masked_image : MaskedImage;
  deflections : option MaskedImage
}.

(** [constants.c.to('kpc / s').value ** 2.0 /
     (4 * math.pi * constants.G.to('kpc3 / M_sun s2').value)] *)
Definition constant_kpc : Q :=
  c_kpc_per_s ^ 2 / (4 * math_pi * G_kpc3_per_Msun_s2).

(** [Plane.__init__] *)
Definition Plane_init (galaxies : list Galaxy) (masked_image : MaskedImage)
  (previous_redshift next_redshift : option Q) (cosmology : option Cosmology)
  (compute_deflections : bool) : result Plane :=
  let deflections :=
    if compute_deflections
    then Some (deflection_masked_image_for_galaxies masked_image galaxies)
    else None in
  match cosmology with
  | None =>
      Ok {| arcsec_per_kpc := None;
            kpc_per_arcsec := None;
            ang_to_earth_kpc := None;
            ang_to_previous_plane_kpc := None;
            ang_to_next_plane_kpc := None;
            ang_next_plane_to_earth_kpc := None;
            critical_density_kpc := None;
            critical_density_arcsec := None;
            galaxies := galaxies;
            masked_image := masked_image;
            deflections := deflections |}
  | Some cosmology =>
      g0 <- index galaxies 0 ;;
      arcsec_per_kpc <-
        at_redshift (arcsec_per_kpc_proper cosmology) (redshift g0) ;;
      let kpc_per_arcsec := 1 / arcsec_per_kpc in
      ang_to_earth_kpc <-
        at_redshift (angular_diameter_distance cosmology) (redshift g0) ;;
      ang_to_previous_plane_kpc <-
        match previous_redshift with
        | Some _ =>
            d <- between_redshifts (angular_diameter_distance_z1z2 cosmology)
                   previous_redshift (redshift g0) ;;
            Ok (Some d)
        | None => Ok None
        end ;;
      match next_redshift with
      | Some _ =>
          ang_to_next_plane_kpc <-
            between_redshifts (angular_diameter_distance_z1z2 cosmology)
              (redshift g0) next_redshift ;;
          ang_next_plane_to_earth_kpc <-
            at_redshift (angular_diameter_distance cosmology) next_redshift ;;
          let critical_density_kpc :=
            constant_kpc * ang_next_plane_to_earth_kpc
            / (ang_to_next_plane_kpc * ang_to_earth_kpc) in
          let critical_density_arcsec :=
            critical_density_kpc * kpc_per_arcsec ^ 2 in
          Ok {| arcsec_per_kpc := Some arcsec_per_kpc;
                kpc_per_arcsec := Some kpc_per_arcsec;
                ang_to_earth_kpc := Some ang_to_earth_kpc;
                ang_to_previous_plane_kpc := ang_to_previous_plane_kpc;
                ang_to_next_plane_kpc := Some ang_to_next_plane_kpc;
                ang_next_plane_to_earth_kpc := Some ang_next_plane_to_earth_kpc;
                critical_density_kpc := Some critical_density_kpc;
                critical_density_arcsec := Some critical_density_arcsec;
                galaxies := galaxies;
                masked_image := masked_image;
                deflections := deflections |}
      | None =>
          Ok {| arcsec_per_kpc := Some arcsec_per_kpc;
                kpc_per_arcsec := Some kpc_per_arcsec;
                ang_to_earth_kpc := Some ang_to_earth_kpc;
                ang_to_previous_plane_kpc := ang_to_previous_plane_kpc;
                ang_to_next_plane_kpc := None;
                ang_next_plane_to_earth_kpc := None;
                critical_density_kpc := None;
                critical_density_arcsec := None;
                galaxies := galaxies;
                masked_image := masked_image;
                deflections := deflections |}
      end
  end.

(** [Plane.trace_to_next_plane]: reading [self.deflections] on a plane that
    was built without them raises [AttributeError]. *)
Definition trace_to_next_plane (self : Plane) : result MaskedImage :=
  match deflections self with
  | Some d => Ok (traced_masked_image_for_deflections (masked_image self) d)
  | None => Err AttributeError
  end.

(** [Plane.generate_image_of_galaxy_light_profiles] *)
Definition Plane_generate_image_of_galaxy_light_profiles
  (self : Plane) (mapping : Mapping) : list Q :=
  sub_intensities_via_grid (sub (masked_image self)) (galaxies self) mapping.

(** [Plane.generate_blurring_image_of_galaxy_light_profiles] *)
Definition Plane_generate_blurring_image_of_galaxy_light_profiles
  (self : Plane) : list Q :=
  blurring_intensities_via_grid (blurring (masked_image self)) (galaxies self).

(** [Plane.generate_pixelization_matrices_of_galaxy]; the Python [None] it
    returns when no galaxy has a pixelization is [Ok None]. *)
Definition generate_pixelization_matrices_of_galaxy
  (self : Plane) (mapping : Mapping) : result (option Inversion) :=
  let pixelized_galaxies := filter has_pixelization (galaxies self) in
  if length pixelized_galaxies =? 0 then Ok None
  else if length pixelized_galaxies =? 1 then
    g <- index pixelized_galaxies 0 ;;
    match pixelization g with
    | Some pix =>
        Ok (Some (inversion_from_pix_masked_image pix
                    (image (masked_image self)) (sub (masked_image self))
                    mapping))
    | None => Err AttributeError
    end
  else if 1 <? length pixelized_galaxies then
    Err (PixelizationException
           "The number of galaxies with pixelizations in one plane is above 1")
  else Ok None.

(** ** [Tracer] *)

Record Tracer : Type := {
  tracer_cosmology : option Cosmology;
  image_plane : Plane;
  source_plane : Plane
}.

(** [Tracer.__init__] *)
Definition Tracer_init (lens_galaxies source_galaxies : list Galaxy)
  (masked_image : MaskedImage) (cosmology : option Cosmology)
  : result Tracer :=
  s0 <- index source_galaxies 0 ;;
  image_plane <- Plane_init lens_galaxies masked_image None (redshift s0)
                   cosmology true ;;
  source_plane_masked_image <- trace_to_next_plane image_plane ;;
  l0 <- index lens_galaxies 0 ;;
  source_plane <- Plane_init source_galaxies source_plane_masked_image
                    (redshift l0) None cosmology false ;;
  Ok {| tracer_cosmology := cosmology;
        image_plane := image_plane;
        source_plane := source_plane |}.

(** The planes of a two-plane tracer, in ray-tracing order. *)
Definition Tracer_planes (self : Tracer) : list Plane :=
  [image_plane self; source_plane self].

(** [Tracer.generate_image_of_galaxy_light_profiles] *)
Definition Tracer_generate_image_of_galaxy_light_profiles
  (self : Tracer) (mapping : Mapping) : list Q :=
  array_add
    (Plane_generate_image_of_galaxy_light_profiles (image_plane self) mapping)
    (Plane_generate_image_of_galaxy_light_profiles (source_plane self) mapping).

(** [Tracer.generate_blurring_image_of_galaxy_light_profiles] *)
Definition Tracer_generate_blurring_image_of_galaxy_light_profiles
  (self : Tracer) : list Q :=
  array_add
    (Plane_generate_blurring_image_of_galaxy_light_profiles (image_plane self))
    (Plane_generate_blurring_image_of_galaxy_light_profiles
       (source_plane self)).

(** [Tracer.generate_pixelization_matrices_of_source_galaxy] *)
Definition generate_pixelization_matrices_of_source_galaxy
  (self : Tracer) (mapping : Mapping) : result (option Inversion) :=
  generate_pixelization_matrices_of_galaxy (source_plane self) mapping.

(** ** [MultiTracer] *)

Record MultiTracer : Type := {
  multi_cosmology : option Cosmology;
  galaxies_redshift_order : list Galaxy;
  planes_redshift_order : list (option Q);
  planes_galaxies : list (list Galaxy);
  planes : list Plane
}.

(** [[redshift for i, redshift in enumerate(galaxy_redshifts)
      if redshift not in galaxy_redshifts[:i]]] *)
Definition distinct_redshifts (galaxy_redshifts : list (option Q))
  : list (option Q) :=
  map snd
    (filter (fun ir => negb (py_in (snd ir) (firstn (fst ir) galaxy_redshifts)))
       (enumerate galaxy_redshifts)).

(** [list(filter(None, list(map(lambda galaxy:
       galaxy if galaxy.redshift == plane_redshift else None, galaxies))))] *)
Definition galaxies_of_plane (galaxies : list Galaxy)
  (plane_redshift : option Q) : list Galaxy :=
  filter_None
    (map (fun galaxy =>
            if py_eq (redshift galaxy) plane_redshift then Some galaxy
            else None)
       galaxies).

(** The body of the loop [for i in range(0, len(self.planes_redshift_order))]:
    from the planes built so far it builds plane [i].  The body runs only
    when the list is not empty, so [len(...) - 1] is a natural number. *)
Definition plane_at (order : list (option Q)) (groups : list (list Galaxy))
  (masked_image : MaskedImage) (cosmology : option Cosmology)
  (planes : list Plane) (i : nat) : result Plane :=
  args <-
    (if i =? 0 then
       next_redshift <- index order (i + 1) ;;
       Ok (true, None, next_redshift, masked_image)
     else if i <? length order - 1 then
       previous_redshift <- index order (i - 1) ;;
       next_redshift <- index order (i + 1) ;;
       previous_plane <- index planes (i - 1) ;;
       new_grid <- trace_to_next_plane previous_plane ;;
       Ok (true, previous_redshift, next_redshift, new_grid)
     else if i =? length order - 1 then
       previous_redshift <- index order (i - 1) ;;
       previous_plane <- index planes (i - 1) ;;
       new_grid <- trace_to_next_plane previous_plane ;;
       Ok (false, previous_redshift, None, new_grid)
     else
       Err (RayTracingException
              "A galaxy was not corrected allocate its previous / next redshifts")) ;;
  let '(compute_deflections, previous_redshift, next_redshift, new_grid) :=
    args in
  plane_galaxies <- index groups i ;;
  Plane_init plane_galaxies new_grid previous_redshift next_redshift cosmology
    compute_deflections.

(** One turn of the loop: [self.planes.append(Plane(...))]. *)
Definition append_plane (order : list (option Q)) (groups : list (list Galaxy))
  (masked_image : MaskedImage) (cosmology : option Cosmology)
  (acc : result (list Plane)) (i : nat) : result (list Plane) :=
  planes <- acc ;;
  plane <- plane_at order groups masked_image cosmology planes i ;;
  Ok (planes ++ [plane]).

Definition build_planes (order : list (option Q)) (groups : list (list Galaxy))
  (masked_image : MaskedImage) (cosmology : option Cosmology)
  : result (list Plane) :=
  fold_left (append_plane order groups masked_image cosmology)
    (seq 0 (length order)) (Ok []).

(** [MultiTracer.__init__]; the argument [redshift_threshold] is not read. *)
Definition MultiTracer_init (galaxies : list Galaxy)
  (masked_image : MaskedImage) (cosmology : option Cosmology)
  : result MultiTracer :=
  galaxies_redshift_order <- sorted redshift galaxies ;;
  let galaxy_redshifts := map redshift galaxies_redshift_order in
  let planes_redshift_order := distinct_redshifts galaxy_redshifts in
  let planes_galaxies :=
    map (galaxies_of_plane galaxies_redshift_order) planes_redshift_order in
  planes <- build_planes planes_redshift_order planes_galaxies masked_image
              cosmology ;;
  Ok {| multi_cosmology := cosmology;
        galaxies_redshift_order := galaxies_redshift_order;
        planes_redshift_order := planes_redshift_order;
        planes_galaxies := planes_galaxies;
        planes := planes |}.

(** ** The critical surface density as the specification writes it *)

Definition critical_density_kpc_spec
  (D_next_to_earth D_this_to_next D_this_to_earth : Q) : Q :=
  (c_kpc_per_s ^ 2 / (4 * math_pi * G_kpc3_per_Msun_s2))
  * (D_next_to_earth / (D_this_to_next * D_this_to_earth)).

Definition critical_density_arcsec_spec
  (critical_density_kpc kpc_per_arcsec : Q) : Q :=
  critical_density_kpc * (kpc_per_arcsec * kpc_per_arcsec).

End Model.

(** ** A concrete system for the examples *)

#[local] Instance sample_types : ExternalTypes :=
  {| Pixelization := nat; Mapping := unit; Inversion := nat |}.

(** Every galaxy deflects every point by [(1/4, 0)]; a plane's image is the
    number of its galaxies at every sub-grid point. *)
#[local] Instance sample_methods : ExternalMethods :=
  {| deflection_masked_image_for_galaxies := fun mi gs =>
       let d := fun g : grid =>
                  map (fun _ => (inject_Z (Z.of_nat (length gs)) * (1 # 4), 0)) g in
       {| image := d (image mi); sub := d (sub mi);
          blurring := d (blurring mi) |};
     sub_intensities_via_grid := fun g gs _ =>
       map (fun _ => inject_Z (Z.of_nat (length gs))) g;
     blurring_intensities_via_grid := fun g gs =>
       map (fun _ => inject_Z (Z.of_nat (length gs))) g;
     inversion_from_pix_masked_image := fun pix _ _ _ => pix;
     c_kpc_per_s := 3;
     G_kpc3_per_Msun_s2 := 2;
     math_pi := 22 # 7 |}.

Definition sample_masked_image : MaskedImage :=
  {| image := [(1, 1); (1, 0)];
     sub := [(1, 1); (1, 0); (1 # 2, 1); (1 # 2, 0)];
     blurring := [(2, 0)] |}.

Definition sample_cosmology : Cosmology :=
  {| arcsec_per_kpc_proper := fun z =>
       match z with Some z => 1 + z | None => 1 end;
     angular_diameter_distance := fun z =>
       match z with Some z => 2 * z | None => 0 end;
     angular_diameter_distance_z1z2 := fun z1 z2 =>
       match z1, z2 with Some a, Some b => b - a | _, _ => 0 end |}.

Definition galaxy_at (id : nat) (z : Q) : Galaxy :=
  {| galaxy_id := id; redshift := Some z; pixelization := None |}.

Definition g_a : Galaxy := galaxy_at 0 1.
Definition g_b : Galaxy := galaxy_at 1 (1 # 2).
Definition g_c : Galaxy := galaxy_at 2 1.
Definition g_none : Galaxy :=
  {| galaxy_id := 3; redshift := None; pixelization := None |}.
Definition sample_mapping : Mapping := tt.

Definition g_pix (id : nat) (pix : nat) : Galaxy :=
  {| galaxy_id := id; redshift := Some 1; pixelization := Some pix |}.

(** ** Orders on redshifts used in the statements *)

Definition redshift_le (a b : option Q) : Prop :=
  exists x y, a = Some x /\ b = Some y /\ x <= y.

Definition redshift_lt (a b : option Q) : Prop :=
  exists x y, a = Some x /\ b = Some y /\ x < y.

(** [distinct_redshifts] as a recursion over the list, with the elements
    already passed in [seen]. *)
Fixpoint distinct_from (seen rest : list (option Q)) : list (option Q) :=
  match rest with
  | [] => []
  | z :: rest' =>
      if py_in z seen then distinct_from (seen ++ [z]) rest'
      else z :: distinct_from (seen ++ [z]) rest'
  end.


(** * Properties *)

Section Properties.

Context {T : ExternalTypes} {M : ExternalMethods}.

(** ** The error monad and the built-ins *)

Lemma bind_Ok {A B : Type} (r : result A) (k : A -> result B) (b : B) :
  bind r k = Ok b -> exists a, r = Ok a /\ k a = Ok b.
Proof.
  destruct r as [a | e]; simpl; intros H; [eauto | discriminate].
Qed.

Lemma bind_Err {A B : Type} (r : result A) (k : A -> result B) (e : exception) :
  bind r k = Err e -> r = Err e \/ exists a, r = Ok a /\ k a = Err e.
Proof.
  destruct r as [a | e']; simpl; intros H; [right; eauto | left; congruence].
Qed.

Lemma index_Ok {A : Type} (l : list A) (i : nat) (a : A) :
  index l i = Ok a <-> nth_error l i = Some a.
Proof.
  unfold index. destruct (nth_error l i); split; congruence.
Qed.

Lemma index_Err {A : Type} (l : list A) (i : nat) (e : exception) :
  index l i = Err e -> e = IndexError /\ (length l <= i)%nat.
Proof.
  unfold index. destruct (nth_error l i) eqn:E; [discriminate |].
  intros H. split; [congruence | now apply nth_error_None].
Qed.

Lemma Qlt_bool_iff (x y : Q) : Qlt_bool x y = true <-> x < y.
Proof.
  unfold Qlt_bool. rewrite negb_true_iff. split.
  - intros H. apply Qnot_le_lt. intros Hle.
    apply Qle_bool_iff in Hle. congruence.
  - intros H. destruct (Qle_bool y x) eqn:E; [| reflexivity].
    apply Qle_bool_iff in E. exfalso. exact (Qlt_not_le _ _ H E).
Qed.

Lemma Qlt_bool_false (x y : Q) : Qlt_bool x y = false <-> y <= x.
Proof.
  unfold Qlt_bool. rewrite negb_false_iff. apply Qle_bool_iff.
Qed.

Lemma py_lt_Ok (a b : option Q) (r : bool) :
  py_lt a b = Ok r ->
  exists x y, a = Some x /\ b = Some y /\ r = Qlt_bool x y.
Proof.
  destruct a as [x |], b as [y |]; simpl; intros H; try discriminate.
  exists x, y. repeat split. congruence.
Qed.

Lemma py_lt_Err (a b : option Q) (e : exception) :
  py_lt a b = Err e -> e = TypeError /\ (a = None \/ b = None).
Proof.
  destruct a, b; simpl; intros H; try discriminate;
    (split; [congruence | auto]).
Qed.

Lemma py_eq_refl (a : option Q) : py_eq a a = true.
Proof.
  destruct a as [x |]; simpl; [| reflexivity].
  apply Qeq_bool_iff. reflexivity.
Qed.

Lemma py_eq_sym (a b : option Q) : py_eq a b = py_eq b a.
Proof.
  destruct a as [x |], b as [y |]; simpl; try reflexivity.
  apply eq_true_iff_eq. rewrite !Qeq_bool_iff.
  split; intros H; symmetry; exact H.
Qed.

Lemma py_eq_trans (a b c : option Q) :
  py_eq a b = true -> py_eq b c = true -> py_eq a c = true.
Proof.
  destruct a as [x |], b as [y |], c as [z |]; simpl; try congruence.
  rewrite !Qeq_bool_iff. intros H1 H2. now rewrite H1.
Qed.

Lemma py_eq_Some (x y : Q) : py_eq (Some x) (Some y) = true <-> x == y.
Proof. simpl. apply Qeq_bool_iff. Qed.

Lemma redshift_le_lt (a b : option Q) :
  redshift_le a b -> py_eq b a = false -> redshift_lt a b.
Proof.
  intros (x & y & -> & -> & Hle) Hne.
  exists x, y. repeat split.
  apply Qle_lteq in Hle. destruct Hle as [Hlt | Heq]; [exact Hlt |].
  symmetry in Heq. apply py_eq_Some in Heq. congruence.
Qed.

Lemma py_in_app (z : option Q) (l1 l2 : list (option Q)) :
  py_in z (l1 ++ l2) = py_in z l1 || py_in z l2.
Proof. apply existsb_app. Qed.

Lemma py_in_true (z : option Q) (l : list (option Q)) :
  py_in z l = true <-> exists a, In a l /\ py_eq z a = true.
Proof. apply existsb_exists. Qed.

(** ** [sorted] *)

Section Sorting.

Variables (A : Type) (key : A -> option Q).

Let key_le (a b : A) : Prop := redshift_le (key a) (key b).

Lemma insert_by_In (x : A) (l r : list A) :
  insert_by key x l = Ok r -> forall a, In a r <-> a = x \/ In a l.
Proof.
  revert r. induction l as [| y l IH]; simpl; intros r H a.
  - inversion H; subst. simpl. intuition.
  - apply bind_Ok in H. destruct H as (b & _ & H). destruct b.
    + apply bind_Ok in H. destruct H as (r' & Hr' & H).
      inversion H; subst. simpl. rewrite (IH _ Hr'). intuition.
    + inversion H; subst. simpl. intuition.
Qed.

Lemma sorted_In (l s : list A) :
  sorted key l = Ok s -> forall a, In a s <-> In a l.
Proof.
  revert s. induction l as [| x l IH]; simpl; intros s H a.
  - inversion H; subst. reflexivity.
  - apply bind_Ok in H. destruct H as (s' & Hs' & H).
    rewrite (insert_by_In _ _ _ H). rewrite (IH _ Hs'). intuition.
Qed.

Lemma insert_by_length (x : A) (l r : list A) :
  insert_by key x l = Ok r -> length r = S (length l).
Proof.
  revert r. induction l as [| y l IH]; simpl; intros r H.
  - inversion H; reflexivity.
  - apply bind_Ok in H. destruct H as (b & _ & H). destruct b.
    + apply bind_Ok in H. destruct H as (r' & Hr' & H).
      inversion H; subst. simpl. now rewrite (IH _ Hr').
    + inversion H; reflexivity.
Qed.

Lemma sorted_length (l s : list A) :
  sorted key l = Ok s -> length s = length l.
Proof.
  revert s. induction l as [| x l IH]; simpl; intros s H.
  - inversion H; reflexivity.
  - apply bind_Ok in H. destruct H as (s' & Hs' & H).
    rewrite (insert_by_length _ _ _ H). now rewrite (IH _ Hs').
Qed.

(** Stability: the elements with a given key keep their input order. *)
Lemma insert_by_filter (z : option Q) (x : A) (l r : list A) :
  insert_by key x l = Ok r ->
  filter (fun a => py_eq (key a) z) r
  = filter (fun a => py_eq (key a) z) (x :: l).
Proof.
  revert r. induction l as [| y l IH]; simpl; intros r H.
  - inversion H; reflexivity.
  - apply bind_Ok in H. destruct H as (b & Hb & H).
    apply py_lt_Ok in Hb. destruct Hb as (ky & kx & Hy & Hx & ->).
    destruct (Qlt_bool ky kx) eqn:Hlt.
    + apply bind_Ok in H. destruct H as (r' & Hr' & H).
      inversion H; subst r. simpl. rewrite (IH _ Hr'). simpl.
      destruct (py_eq (key y) z) eqn:Ey, (py_eq (key x) z) eqn:Ex;
        try reflexivity.
      exfalso. apply Qlt_bool_iff in Hlt.
      rewrite py_eq_sym in Ex.
      pose proof (py_eq_trans _ _ _ Ey Ex) as E.
      rewrite Hy, Hx in E. apply py_eq_Some in E.
      rewrite E in Hlt. exact (Qlt_irrefl _ Hlt).
    + inversion H; subst r. reflexivity.
Qed.

Lemma sorted_filter (z : option Q) (l s : list A) :
  sorted key l = Ok s ->
  filter (fun a => py_eq (key a) z) s = filter (fun a => py_eq (key a) z) l.
Proof.
  revert s. induction l as [| x l IH]; simpl; intros s H.
  - inversion H; reflexivity.
  - apply bind_Ok in H. destruct H as (s' & Hs' & H).
    rewrite (insert_by_filter z _ _ _ H). simpl. now rewrite (IH _ Hs').
Qed.

Lemma key_le_trans (a b c : A) : key_le a b -> key_le b c -> key_le a c.
Proof.
  intros (x & y & Hx & Hy & Hxy) (y' & w & Hy' & Hw & Hyw).
  exists x, w. repeat split; try assumption.
  assert (y' = y) by congruence. subst y'.
  exact (Qle_trans _ _ _ Hxy Hyw).
Qed.

Lemma insert_by_sorted (x : A) (l r : list A) :
  insert_by key x l = Ok r ->
  StronglySorted key_le l -> StronglySorted key_le r.
Proof.
  revert r. induction l as [| y l IH]; simpl; intros r H Hs.
  - inversion H; subst. repeat constructor.
  - apply bind_Ok in H. destruct H as (b & Hb & H).
    apply py_lt_Ok in Hb. destruct Hb as (ky & kx & Hy & Hx & ->).
    apply StronglySorted_inv in Hs. destruct Hs as [Hs Hall].
    destruct (Qlt_bool ky kx) eqn:Hlt.
    + apply bind_Ok in H. destruct H as (r' & Hr' & H).
      inversion H; subst r. constructor; [now apply IH |].
      apply Forall_forall. intros a Ha.
      apply (insert_by_In _ _ _ Hr') in Ha. destruct Ha as [-> | Ha].
      * exists ky, kx. repeat split; try assumption.
        apply Qlt_le_weak. now apply Qlt_bool_iff.
      * rewrite Forall_forall in Hall. now apply Hall.
    + inversion H; subst r.
      assert (Hxy : key_le x y).
      { exists kx, ky. repeat split; try assumption.
        now apply Qlt_bool_false. }
      constructor; [constructor; assumption |].
      constructor; [exact Hxy |].
      apply Forall_forall. intros a Ha.
      rewrite Forall_forall in Hall.
      exact (key_le_trans _ _ _ Hxy (Hall _ Ha)).
Qed.

Lemma sorted_sorted (l s : list A) :
  sorted key l = Ok s -> StronglySorted key_le s.
Proof.
  revert s. induction l as [| x l IH]; simpl; intros s H.
  - inversion H; subst. constructor.
  - apply bind_Ok in H. destruct H as (s' & Hs' & H).
    exact (insert_by_sorted _ _ _ H (IH _ Hs')).
Qed.

(** [sorted] raises nothing but [TypeError]. *)
Lemma insert_by_Err (x : A) (l : list A) (e : exception) :
  insert_by key x l = Err e -> e = TypeError.
Proof.
  induction l as [| y l IH]; simpl; intros H; [discriminate |].
  apply bind_Err in H. destruct H as [H | (b & _ & H)].
  - now apply py_lt_Err in H.
  - destruct b; [| discriminate].
    apply bind_Err in H. destruct H as [H | (r & _ & H)];
      [auto | discriminate].
Qed.

Lemma sorted_Err (l : list A) (e : exception) :
  sorted key l = Err e -> e = TypeError.
Proof.
  induction l as [| x l IH]; simpl; intros H; [discriminate |].
  apply bind_Err in H. destruct H as [H | (s & _ & H)]; [auto |].
  exact (insert_by_Err _ _ _ H).
Qed.

(** A key [None] among two or more elements makes [sorted] raise. *)
Lemma sorted_Ok_keys (l s : list A) :
  sorted key l = Ok s -> (2 <= length l)%nat ->
  forall a, In a l -> key a <> None.
Proof.
  revert s. induction l as [| x l IH]; simpl; intros s H Hlen a Ha;
    [contradiction |].
  apply bind_Ok in H. destruct H as (s' & Hs' & H).
  assert (Hne : s' <> []).
  { apply sorted_length in Hs'. destruct s'; simpl in *; [lia | congruence]. }
  destruct s' as [| y s'']; [congruence |]. simpl in H.
  apply bind_Ok in H. destruct H as (b & Hb & _).
  apply py_lt_Ok in Hb. destruct Hb as (ky & kx & Hy & Hx & _).
  destruct Ha as [<- | Ha]; [congruence |].
  destruct l as [| x1 l1]; [contradiction |].
  destruct l1 as [| x2 l2].
  - simpl in Hs'. inversion Hs'; subst. destruct Ha as [<- | []]. congruence.
  - apply (IH _ Hs'); [simpl; lia | exact Ha].
Qed.

End Sorting.

(** ** [distinct_redshifts] *)

Lemma distinct_redshifts_from (seen rest : list (option Q)) :
  map snd
    (filter
       (fun ir => negb (py_in (snd ir) (firstn (fst ir) (seen ++ rest))))
       (combine (seq (length seen) (length rest)) rest))
  = distinct_from seen rest.
Proof.
  revert seen. induction rest as [| z rest IH]; intros seen; [reflexivity |].
  simpl.
  assert (Hfirst : firstn (length seen) (seen ++ z :: rest) = seen).
  { rewrite firstn_app, Nat.sub_diag, firstn_all. simpl. apply app_nil_r. }
  rewrite Hfirst.
  specialize (IH (seen ++ [z])).
  rewrite <- app_assoc in IH. simpl in IH.
  rewrite length_app in IH. simpl in IH. rewrite Nat.add_1_r in IH.
  destruct (py_in z seen); simpl; now rewrite IH.
Qed.

Lemma distinct_redshifts_eq (rs : list (option Q)) :
  distinct_redshifts rs = distinct_from [] rs.
Proof. exact (distinct_redshifts_from [] rs). Qed.

Lemma distinct_from_In (seen rest : list (option Q)) (z : option Q) :
  In z (distinct_from seen rest) -> In z rest /\ py_in z seen = false.
Proof.
  revert seen. induction rest as [| a rest IH]; simpl; intros seen H;
    [contradiction |].
  assert (Hrec : In z (distinct_from (seen ++ [a]) rest) ->
                 (a = z \/ In z rest) /\ py_in z seen = false).
  { intros Hz. apply IH in Hz. destruct Hz as [Hin Hseen].
    rewrite py_in_app in Hseen. apply orb_false_iff in Hseen.
    split; [now right | tauto]. }
  destruct (py_in a seen) eqn:Ea; [now apply Hrec |].
  destruct H as [<- | H]; [split; [now left | exact Ea] | now apply Hrec].
Qed.

Lemma distinct_from_complete (seen rest : list (option Q)) (z : option Q) :
  py_in z rest = true -> py_in z seen = false ->
  py_in z (distinct_from seen rest) = true.
Proof.
  revert seen. induction rest as [| a rest IH]; simpl; intros seen Hin Hseen;
    [discriminate |].
  destruct (py_eq z a) eqn:Eza.
  - destruct (py_in a seen) eqn:Ea.
    + exfalso. apply py_in_true in Ea. destruct Ea as (b & Hb & Hab).
      assert (py_in z seen = true).
      { apply py_in_true. exists b. split; [exact Hb |].
        exact (py_eq_trans _ _ _ Eza Hab). }
      congruence.
    + simpl. now rewrite Eza.
  - simpl in Hin.
    assert (Hrec : py_in z (distinct_from (seen ++ [a]) rest) = true).
    { apply IH; [exact Hin |].
      rewrite py_in_app, Hseen. simpl. now rewrite Eza. }
    destruct (py_in a seen); [exact Hrec |].
    simpl. rewrite Hrec. apply orb_true_r.
Qed.

Lemma distinct_from_sorted (seen rest : list (option Q)) :
  StronglySorted redshift_le rest ->
  StronglySorted redshift_lt (distinct_from seen rest).
Proof.
  revert seen. induction rest as [| a rest IH]; simpl; intros seen Hs;
    [constructor |].
  apply StronglySorted_inv in Hs. destruct Hs as [Hs Hall].
  destruct (py_in a seen); [now apply IH |].
  constructor; [now apply IH |].
  apply Forall_forall. intros z Hz.
  apply distinct_from_In in Hz. destruct Hz as [Hin Hseen].
  rewrite Forall_forall in Hall.
  apply redshift_le_lt; [now apply Hall |].
  rewrite py_in_app in Hseen. apply orb_false_iff in Hseen.
  destruct Hseen as [_ Hseen]. simpl in Hseen.
  now rewrite orb_false_r in Hseen.
Qed.

Lemma distinct_from_all_seen (seen rest : list (option Q)) :
  (forall a, In a rest -> py_in a seen = true) ->
  distinct_from seen rest = [].
Proof.
  revert seen. induction rest as [| a rest IH]; simpl; intros seen H;
    [reflexivity |].
  rewrite (H a (or_introl eq_refl)). apply IH. intros b Hb.
  rewrite py_in_app, (H b (or_intror Hb)). reflexivity.
Qed.

Lemma StronglySorted_map {A B : Type} (f : A -> B) (R : B -> B -> Prop)
  (l : list A) :
  StronglySorted (fun a b => R (f a) (f b)) l -> StronglySorted R (map f l).
Proof.
  induction 1 as [| a l Hs IH Hall]; simpl; constructor; [exact IH |].
  apply Forall_map. exact Hall.
Qed.

(** [galaxies_of_plane] is a filter. *)
Lemma galaxies_of_plane_filter (gs : list Galaxy) (z : option Q) :
  galaxies_of_plane gs z = filter (fun g => py_eq (redshift g) z) gs.
Proof.
  unfold galaxies_of_plane. induction gs as [| g gs IH]; simpl;
    [reflexivity |].
  destruct (py_eq (redshift g) z); simpl; now rewrite IH.
Qed.

(** ** [Plane.__init__] and the plane loop *)

(** What a plane built with a cosmology holds: the first galaxy has a
    redshift, and every attribute is the provider's value at the redshifts
    [__init__] passes. *)
Lemma Plane_init_with_cosmology (gs : list Galaxy) (mi : MaskedImage)
  (prev next : option Q) (c : Cosmology) (cd : bool) (p : Plane) :
  Plane_init gs mi prev next (Some c) cd = Ok p ->
  exists g0,
    nth_error gs 0 = Some g0 /\ redshift g0 <> None /\
    arcsec_per_kpc p = Some (arcsec_per_kpc_proper c (redshift g0)) /\
    kpc_per_arcsec p = Some (1 / arcsec_per_kpc_proper c (redshift g0)) /\
    ang_to_earth_kpc p = Some (angular_diameter_distance c (redshift g0)) /\
    ang_to_previous_plane_kpc p
    = match prev with
      | Some _ => Some (angular_diameter_distance_z1z2 c prev (redshift g0))
      | None => None
      end /\
    ang_to_next_plane_kpc p
    = match next with
      | Some _ => Some (angular_diameter_distance_z1z2 c (redshift g0) next)
      | None => None
      end /\
    ang_next_plane_to_earth_kpc p
    = match next with
      | Some _ => Some (angular_diameter_distance c next)
      | None => None
      end /\
    critical_density_kpc p
    = match next with
      | Some _ =>
          Some (constant_kpc * angular_diameter_distance c next
                / (angular_diameter_distance_z1z2 c (redshift g0) next
                   * angular_diameter_distance c (redshift g0)))
      | None => None
      end /\
    critical_density_arcsec p
    = match next with
      | Some _ =>
          Some (constant_kpc * angular_diameter_distance c next
                / (angular_diameter_distance_z1z2 c (redshift g0) next
                   * angular_diameter_distance c (redshift g0))
                * (1 / arcsec_per_kpc_proper c (redshift g0)) ^ 2)
      | None => None
      end /\
    galaxies p = gs /\ masked_image p = mi /\
    deflections p =
      (if cd then Some (deflection_masked_image_for_galaxies mi gs) else None).
Proof.
  unfold Plane_init. intros H.
  apply bind_Ok in H. destruct H as (g0 & Hg0 & H). apply index_Ok in Hg0.
  exists g0. split; [exact Hg0 |].
  destruct (redshift g0) as [z0 |] eqn:Ez; [| discriminate].
  split; [discriminate |].
  cbn [at_redshift bind] in H.
  destruct prev as [zp |], next as [zn |];
    cbn [between_redshifts at_redshift bind] in H;
    inversion H; subst p; cbn; auto 12.
Qed.

Lemma Plane_init_Ok (gs : list Galaxy) (mi : MaskedImage)
  (prev next : option Q) (c : option Cosmology) (cd : bool) (p : Plane) :
  Plane_init gs mi prev next c cd = Ok p ->
  galaxies p = gs /\ masked_image p = mi /\
  deflections p =
    (if cd then Some (deflection_masked_image_for_galaxies mi gs) else None).
Proof.
  destruct c as [c |].
  - intros H. apply Plane_init_with_cosmology in H.
    destruct H as (g0 & _ & _ & _ & _ & _ & _ & _ & _ & _ & _ & H). exact H.
  - unfold Plane_init. intros H. inversion H; subst p. simpl. auto.
Qed.

(** [Plane.__init__] succeeds on a list whose first galaxy has a redshift,
    and without a cosmology on any list that is not empty. *)
Lemma Plane_init_succeeds (g : Galaxy) (gs : list Galaxy) (mi : MaskedImage)
  (prev next : option Q) (c : option Cosmology) (cd : bool) :
  c = None \/ redshift g <> None ->
  exists p, Plane_init (g :: gs) mi prev next c cd = Ok p.
Proof.
  intros Hc. unfold Plane_init. destruct c as [c |]; [| eauto].
  destruct Hc as [Hc | Hz]; [discriminate |].
  cbn [index nth_error bind].
  destruct (redshift g) as [z |]; [| congruence].
  cbn [at_redshift bind].
  destruct prev, next; cbn [between_redshifts at_redshift bind]; eauto.
Qed.

(** Its failures: [IndexError] on the empty list and [TypeError] on a first
    galaxy without redshift, both only with a cosmology. *)
Lemma Plane_init_Err (gs : list Galaxy) (mi : MaskedImage)
  (prev next : option Q) (c : option Cosmology) (cd : bool) (e : exception) :
  Plane_init gs mi prev next c cd = Err e ->
  c <> None /\
  ((e = IndexError /\ gs = []) \/
   (e = TypeError /\ exists g rest, gs = g :: rest /\ redshift g = None)).
Proof.
  destruct c as [c |]; [| unfold Plane_init; discriminate].
  intros H. split; [discriminate |].
  destruct gs as [| g rest].
  - left. unfold Plane_init in H. simpl in H. split; congruence.
  - right. destruct (redshift g) as [z |] eqn:Ez.
    + destruct (Plane_init_succeeds g rest mi prev next (Some c) cd)
        as (p & Hp); [right; congruence | congruence].
    + unfold Plane_init in H. cbn [index nth_error bind] in H.
      rewrite Ez in H. simpl in H. split; [congruence | eauto].
Qed.

Lemma trace_to_next_plane_Err (p : Plane) (e : exception) :
  trace_to_next_plane p = Err e -> e = AttributeError /\ deflections p = None.
Proof.
  unfold trace_to_next_plane. destruct (deflections p); [discriminate |].
  intros H. split; congruence.
Qed.

(** What a successful turn of the loop builds at index [i]. *)
Lemma plane_at_Ok (order : list (option Q)) (groups : list (list Galaxy))
  (mi : MaskedImage) (c : option Cosmology) (prior : list Plane) (i : nat)
  (p : Plane) :
  plane_at order groups mi c prior i = Ok p ->
  nth_error groups i = Some (galaxies p) /\
  (((S i < length order)%nat /\
    deflections p =
      Some (deflection_masked_image_for_galaxies (masked_image p) (galaxies p)))
   \/ (S i = length order /\ i <> 0%nat /\ deflections p = None)).
Proof.
  unfold plane_at. intros H.
  apply bind_Ok in H. destruct H as ([[[cd prev] next] grid] & Hargs & H).
  apply bind_Ok in H. destruct H as (gs & Hgs & H).
  apply index_Ok in Hgs. apply Plane_init_Ok in H.
  destruct H as (Hg & Hm & Hd). rewrite Hg, Hm. split; [exact Hgs |].
  destruct (i =? 0)%nat eqn:E0.
  { apply Nat.eqb_eq in E0. subst i.
    apply bind_Ok in Hargs. destruct Hargs as (nx & Hnx & Hargs).
    inversion Hargs; subst. left. split; [| exact Hd].
    apply index_Ok in Hnx.
    assert (nth_error order (0 + 1) <> None) by congruence.
    apply nth_error_Some in H. simpl in H. lia. }
  apply Nat.eqb_neq in E0.
  destruct (i <? length order - 1)%nat eqn:E1.
  { apply Nat.ltb_lt in E1.
    apply bind_Ok in Hargs. destruct Hargs as (pv & _ & Hargs).
    apply bind_Ok in Hargs. destruct Hargs as (nx & _ & Hargs).
    apply bind_Ok in Hargs. destruct Hargs as (pp & _ & Hargs).
    apply bind_Ok in Hargs. destruct Hargs as (ng & _ & Hargs).
    inversion Hargs; subst. left. split; [lia | exact Hd]. }
  destruct (i =? length order - 1)%nat eqn:E2; [| discriminate].
  apply Nat.eqb_eq in E2.
  apply bind_Ok in Hargs. destruct Hargs as (pv & _ & Hargs).
  apply bind_Ok in Hargs. destruct Hargs as (pp & _ & Hargs).
  apply bind_Ok in Hargs. destruct Hargs as (ng & _ & Hargs).
  inversion Hargs; subst. right. repeat split; [lia | exact E0 | exact Hd].
Qed.

(** Within the range of the loop the branch that raises
    [RayTracingException] is never taken. *)
Lemma plane_at_Err (order : list (option Q)) (groups : list (list Galaxy))
  (mi : MaskedImage) (c : option Cosmology) (prior : list Plane) (i : nat)
  (e : exception) :
  (i < length order)%nat ->
  plane_at order groups mi c prior i = Err e ->
  e = IndexError \/ e = AttributeError \/ e = TypeError.
Proof.
  unfold plane_at. intros Hi H.
  assert (Hidx : forall (X : Type) (l : list X) (j : nat),
             index l j = Err e ->
             e = IndexError \/ e = AttributeError \/ e = TypeError).
  { intros X l j Hj. apply index_Err in Hj. tauto. }
  assert (Htr : forall q, trace_to_next_plane q = Err e ->
                          e = IndexError \/ e = AttributeError \/ e = TypeError).
  { intros q Hq. apply trace_to_next_plane_Err in Hq. tauto. }
  apply bind_Err in H. destruct H as [H | (args & _ & H)].
  - destruct (i =? 0)%nat.
    { apply bind_Err in H. destruct H as [H | (? & _ & H)];
        [eauto | discriminate]. }
    destruct (i <? length order - 1)%nat eqn:E1.
    { repeat (apply bind_Err in H; destruct H as [H | (? & _ & H)];
              [solve [eauto] |]).
      discriminate. }
    destruct (i =? length order - 1)%nat eqn:E2.
    { repeat (apply bind_Err in H; destruct H as [H | (? & _ & H)];
              [solve [eauto] |]).
      discriminate. }
    apply Nat.ltb_ge in E1. apply Nat.eqb_neq in E2. lia.
  - destruct args as [[[cd prev] next] grid].
    apply bind_Err in H. destruct H as [H | (gs & _ & H)]; [eauto |].
    apply Plane_init_Err in H. tauto.
Qed.

Lemma fold_append_plane_Err (order : list (option Q))
  (groups : list (list Galaxy)) (mi : MaskedImage) (c : option Cosmology)
  (l : list nat) (e : exception) :
  fold_left (append_plane order groups mi c) l (Err e) = Err e.
Proof. induction l as [| i l IH]; simpl; [reflexivity | exact IH]. Qed.

Lemma fold_append_plane_Ok (order : list (option Q))
  (groups : list (list Galaxy)) (mi : MaskedImage) (c : option Cosmology)
  (m k : nat) (acc planes : list Plane) :
  fold_left (append_plane order groups mi c) (seq k m) (Ok acc) = Ok planes ->
  exists rest,
    planes = acc ++ rest /\ length rest = m /\
    forall j p, nth_error rest j = Some p ->
      exists prior, plane_at order groups mi c prior (k + j) = Ok p.
Proof.
  revert k acc. induction m as [| m IH]; simpl; intros k acc H.
  - inversion H; subst. exists []. rewrite app_nil_r.
    repeat split. intros [| j] p Hj; discriminate.
  - destruct (plane_at order groups mi c acc k) as [p0 | e] eqn:E; simpl in H.
    + apply IH in H. destruct H as (rest & -> & Hlen & Hrest).
      exists (p0 :: rest). rewrite <- app_assoc. simpl.
      repeat split; [now rewrite Hlen |].
      intros [| j] p Hj; simpl in Hj.
      * inversion Hj; subst. exists acc. now rewrite Nat.add_0_r.
      * destruct (Hrest _ _ Hj) as (prior & Hp). exists prior.
        now rewrite Nat.add_succ_r.
    + rewrite fold_append_plane_Err in H. discriminate.
Qed.

Lemma fold_append_plane_fails (order : list (option Q))
  (groups : list (list Galaxy)) (mi : MaskedImage) (c : option Cosmology)
  (m k : nat) (acc : list Plane) (e : exception) :
  fold_left (append_plane order groups mi c) (seq k m) (Ok acc) = Err e ->
  exists prior i, (k <= i < k + m)%nat /\
                  plane_at order groups mi c prior i = Err e.
Proof.
  revert k acc. induction m as [| m IH]; simpl; intros k acc H;
    [discriminate |].
  destruct (plane_at order groups mi c acc k) as [p0 | e0] eqn:E; simpl in H.
  - apply IH in H. destruct H as (prior & i & Hi & H).
    exists prior, i. split; [lia | exact H].
  - rewrite fold_append_plane_Err in H. inversion H; subst e0.
    exists acc, k. split; [lia | exact E].
Qed.

Lemma build_planes_Ok (order : list (option Q)) (groups : list (list Galaxy))
  (mi : MaskedImage) (c : option Cosmology) (planes : list Plane) :
  build_planes order groups mi c = Ok planes ->
  length planes = length order /\
  forall i p, nth_error planes i = Some p ->
    exists prior, plane_at order groups mi c prior i = Ok p.
Proof.
  unfold build_planes. intros H. apply fold_append_plane_Ok in H.
  destruct H as (rest & -> & Hlen & Hrest). simpl. split; [exact Hlen |].
  exact Hrest.
Qed.

Lemma build_planes_Err (order : list (option Q)) (groups : list (list Galaxy))
  (mi : MaskedImage) (c : option Cosmology) (e : exception) :
  build_planes order groups mi c = Err e ->
  e = IndexError \/ e = AttributeError \/ e = TypeError.
Proof.
  unfold build_planes. intros H. apply fold_append_plane_fails in H.
  destruct H as (prior & i & Hi & H).
  apply (plane_at_Err order groups mi c prior i); [lia | exact H].
Qed.

Lemma MultiTracer_init_Ok (gs : list Galaxy) (mi : MaskedImage)
  (c : option Cosmology) (t : MultiTracer) :
  MultiTracer_init gs mi c = Ok t ->
  sorted redshift gs = Ok (galaxies_redshift_order t) /\
  planes_redshift_order t
  = distinct_redshifts (map redshift (galaxies_redshift_order t)) /\
  planes_galaxies t
  = map (galaxies_of_plane (galaxies_redshift_order t))
      (planes_redshift_order t) /\
  build_planes (planes_redshift_order t) (planes_galaxies t) mi c
  = Ok (planes t).
Proof.
  unfold MultiTracer_init. intros H.
  apply bind_Ok in H. destruct H as (s & Hs & H).
  apply bind_Ok in H. destruct H as (ps & Hps & H).
  inversion H; subst t. simpl. auto.
Qed.


Lemma Tracer_init_Ok (lens source : list Galaxy) (mi : MaskedImage)
  (c : option Cosmology) (t : Tracer) :
  Tracer_init lens source mi c = Ok t ->
  let d := deflection_masked_image_for_galaxies mi lens in
  galaxies (image_plane t) = lens /\
  masked_image (image_plane t) = mi /\
  deflections (image_plane t) = Some d /\
  galaxies (source_plane t) = source /\
  masked_image (source_plane t) = traced_masked_image_for_deflections mi d /\
  deflections (source_plane t) = None.
Proof.
  unfold Tracer_init. intros H.
  apply bind_Ok in H. destruct H as (s0 & _ & H).
  apply bind_Ok in H. destruct H as (ip & Hip & H).
  apply bind_Ok in H. destruct H as (g & Hg & H).
  apply bind_Ok in H. destruct H as (l0 & _ & H).
  apply bind_Ok in H. destruct H as (sp & Hsp & H).
  inversion H; subst t. simpl.
  apply Plane_init_Ok in Hip. destruct Hip as (Hig & Him & Hid).
  apply Plane_init_Ok in Hsp. destruct Hsp as (Hsg & Hsm & Hsd).
  unfold trace_to_next_plane in Hg. rewrite Hid, Him in Hg.
  inversion Hg; subst g. auto 10.
Qed.

(** ** The claims *)


(** C4.  The last plane of a tracer has no deflections and every plane
    before it has them: in the two-plane tracer the image plane has its
    deflections and the source plane has none; in a multi-plane tracer plane
    [i] has the deflections of its own galaxies on its own grid when it is
    not the last one, and none when it is. *)
Theorem only_last_plane_lacks_deflections :
  (forall (lens source : list Galaxy) (mi : MaskedImage)
          (c : option Cosmology) (t : Tracer),
      Tracer_init lens source mi c = Ok t ->
      deflections (image_plane t)
      = Some (deflection_masked_image_for_galaxies
                (masked_image (image_plane t)) (galaxies (image_plane t))) /\
      deflections (source_plane t) = None) /\
  (forall (gs : list Galaxy) (mi : MaskedImage) (c : option Cosmology)
          (t : MultiTracer),
      MultiTracer_init gs mi c = Ok t ->
      forall i p, nth_error (planes t) i = Some p ->
        ((S i < length (planes t))%nat ->
         deflections p
         = Some (deflection_masked_image_for_galaxies
                   (masked_image p) (galaxies p))) /\
        (S i = length (planes t) -> deflections p = None)).
Proof.
  split.
  - intros lens source mi c t H. apply Tracer_init_Ok in H. cbv zeta in H.
    destruct H as (Hg & Hm & Hd & _ & _ & Hs). rewrite Hg, Hm. auto.
  - intros gs mi c t H i p Hp.
    apply MultiTracer_init_Ok in H. destruct H as (_ & _ & _ & H).
    apply build_planes_Ok in H. destruct H as [Hlen H].
    destruct (H _ _ Hp) as (prior & Hat).
    apply plane_at_Ok in Hat. destruct Hat as [_ Hat]. rewrite Hlen.
    destruct Hat as [[Hi Hd] | (Hi & _ & Hd)]; split; intros Hi';
      try lia; assumption.
Qed.

Lemma array_add_nth (a b : list Q) (k : nat) (x y : Q) :
  nth_error a k = Some x -> nth_error b k = Some y ->
  nth_error (array_add a b) k = Some (x + y).
Proof.
  unfold array_add. revert b k.
  induction a as [| x0 a IH]; intros b k Hx Hy.
  - destruct k; discriminate.
  - destruct b as [| y0 b]; [destruct k; discriminate |].
    destruct k as [| k]; simpl in *.
    + inversion Hx; inversion Hy; subst. reflexivity.
    + now apply IH.
Qed.

Lemma array_add_length (a b : list Q) :
  length a = length b -> length (array_add a b) = length a.
Proof.
  intros H. unfold array_add.
  rewrite length_map, length_combine, <- H. apply Nat.min_id.
Qed.

(** C5.  The image a tracer generates is the sum, over its planes, of each
    plane's own image of its galaxies, and likewise for the blurring image:
    the value at every pixel is the value of the image plane's image at that
    pixel plus the value of the source plane's image there, and the sum has
    the length of the plane images.  The image plane is evaluated on the
    input grids and the source plane on the grids traced from them. *)
Theorem tracer_image_is_sum_of_plane_images :
  (forall (t : Tracer) (mapping : Mapping),
      Tracer_generate_image_of_galaxy_light_profiles t mapping
      = sum_arrays
          (map (fun p => Plane_generate_image_of_galaxy_light_profiles p mapping)
             (Tracer_planes t))) /\
  (forall t : Tracer,
      Tracer_generate_blurring_image_of_galaxy_light_profiles t
      = sum_arrays
          (map Plane_generate_blurring_image_of_galaxy_light_profiles
             (Tracer_planes t))) /\
  (forall (lens source : list Galaxy) (mi : MaskedImage)
          (c : option Cosmology) (t : Tracer) (mapping : Mapping),
      Tracer_init lens source mi c = Ok t ->
      let traced :=
        traced_masked_image_for_deflections mi
          (deflection_masked_image_for_galaxies mi lens) in
      Tracer_generate_image_of_galaxy_light_profiles t mapping
      = array_add (sub_intensities_via_grid (sub mi) lens mapping)
          (sub_intensities_via_grid (sub traced) source mapping) /\
      Tracer_generate_blurring_image_of_galaxy_light_profiles t
      = array_add (blurring_intensities_via_grid (blurring mi) lens)
          (blurring_intensities_via_grid (blurring traced) source)) /\
  (forall (t : Tracer) (mapping : Mapping) (k : nat) (x y : Q),
      nth_error
        (Plane_generate_image_of_galaxy_light_profiles (image_plane t) mapping)
        k = Some x ->
      nth_error
        (Plane_generate_image_of_galaxy_light_profiles (source_plane t) mapping)
        k = Some y ->
      nth_error (Tracer_generate_image_of_galaxy_light_profiles t mapping) k
      = Some (x + y)) /\
  (forall (t : Tracer) (k : nat) (x y : Q),
      nth_error
        (Plane_generate_blurring_image_of_galaxy_light_profiles (image_plane t))
        k = Some x ->
      nth_error
        (Plane_generate_blurring_image_of_galaxy_light_profiles
           (source_plane t))
        k = Some y ->
      nth_error (Tracer_generate_blurring_image_of_galaxy_light_profiles t) k
      = Some (x + y)) /\
  (forall (t : Tracer) (mapping : Mapping),
      length (Plane_generate_image_of_galaxy_light_profiles (image_plane t)
                mapping)
      = length (Plane_generate_image_of_galaxy_light_profiles (source_plane t)
                  mapping) ->
      length (Tracer_generate_image_of_galaxy_light_profiles t mapping)
      = length (Plane_generate_image_of_galaxy_light_profiles (image_plane t)
                  mapping)).
Proof.
  split; [reflexivity |]. split; [reflexivity |].
  split; [| split; [| split]].
  - intros lens source mi c t mapping H. apply Tracer_init_Ok in H.
    cbv zeta in *. destruct H as (Hg & Hm & _ & Hsg & Hsm & _).
    unfold Tracer_generate_image_of_galaxy_light_profiles,
      Tracer_generate_blurring_image_of_galaxy_light_profiles,
      Plane_generate_image_of_galaxy_light_profiles,
      Plane_generate_blurring_image_of_galaxy_light_profiles.
    rewrite Hg, Hm, Hsg, Hsm. split; reflexivity.
  - intros t mapping k x y Hx Hy.
    unfold Tracer_generate_image_of_galaxy_light_profiles.
    now apply array_add_nth.
  - intros t k x y Hx Hy.
    unfold Tracer_generate_blurring_image_of_galaxy_light_profiles.
    now apply array_add_nth.
  - intros t mapping Hlen.
    unfold Tracer_generate_image_of_galaxy_light_profiles.
    now apply array_add_length.
Qed.

(** C6.  A plane with two or more pixelized galaxies fails to produce the
    pixelization matrices, with [PixelizationException]; a plane in which
    exactly one galaxy has a pixelization produces them from that galaxy's
    pixelization. *)
Theorem pixelization_matrices_of_plane (p : Plane) (mapping : Mapping) :
  ((2 <= length (filter has_pixelization (galaxies p)))%nat ->
   exists msg,
     generate_pixelization_matrices_of_galaxy p mapping
     = Err (PixelizationException msg)) /\
  (forall (before after : list Galaxy) (g : Galaxy) (pix : Pixelization),
      galaxies p = before ++ g :: after ->
      pixelization g = Some pix ->
      (forall g', In g' (before ++ after) -> pixelization g' = None) ->
      generate_pixelization_matrices_of_galaxy p mapping
      = Ok (Some (inversion_from_pix_masked_image pix
                    (image (masked_image p)) (sub (masked_image p)) mapping))).
Proof.
  unfold generate_pixelization_matrices_of_galaxy. split.
  - intros H.
    destruct (filter has_pixelization (galaxies p)) as [| g1 [| g2 l]];
      simpl in *; try lia. eauto.
  - intros before after g pix Hg Hpix Hnone.
    assert (Hf : filter has_pixelization (galaxies p) = [g]).
    { assert (Hno : forall l, (forall g', In g' l -> pixelization g' = None) ->
                              filter has_pixelization l = []).
      { induction l as [| a l IH]; simpl; intros Hl; [reflexivity |].
        unfold has_pixelization at 1. rewrite (Hl a (or_introl eq_refl)).
        apply IH. intros g' Hg'. apply Hl. now right. }
      rewrite Hg, filter_app. simpl.
      unfold has_pixelization at 2. rewrite Hpix.
      rewrite !Hno; [reflexivity | |];
        intros g' Hg'; apply Hnone; apply in_or_app; auto. }
    rewrite Hf. simpl. now rewrite Hpix.
Qed.

(** C9.  A plane built with [compute_deflections=False] has no deflections
    and [trace_to_next_plane] fails on it with the missing-attribute error; a
    plane built with [compute_deflections=True] is traced to the grids
    displaced by its deflections.  Hence tracing succeeds exactly when the
    plane was built with its deflections. *)
Theorem trace_needs_computed_deflections (gs : list Galaxy)
  (mi : MaskedImage) (prev next : option Q) (c : option Cosmology) (cd : bool)
  (p : Plane) :
  Plane_init gs mi prev next c cd = Ok p ->
  (cd = false ->
   deflections p = None /\ trace_to_next_plane p = Err AttributeError) /\
  (cd = true ->
   trace_to_next_plane p
   = Ok (traced_masked_image_for_deflections mi
           (deflection_masked_image_for_galaxies mi gs))) /\
  (is_ok (trace_to_next_plane p) = true <-> cd = true).
Proof.
  intros H. apply Plane_init_Ok in H. destruct H as (Hg & Hm & Hd).
  unfold trace_to_next_plane. rewrite Hd, Hm.
  destruct cd; simpl; intuition congruence.
Qed.

(** C7, amended.  A plane computes its critical surface density exactly when
    it is built with a cosmology and a next redshift; the previous redshift
    plays no part.  The values are
    [c^2/(4 pi G) * D_next_to_earth / (D_this_to_next * D_this_to_earth)]
    and that density times [kpc_per_arcsec^2], with the distances supplied by
    the cosmology at the redshift of the plane's first galaxy and at the next
    redshift, and [kpc_per_arcsec = 1 / arcsec_per_kpc_proper]. *)
Theorem critical_density_of_plane (gs : list Galaxy) (mi : MaskedImage)
  (prev next : option Q) (c : option Cosmology) (cd : bool) (p : Plane) :
  Plane_init gs mi prev next c cd = Ok p ->
  (critical_density_kpc p <> None <-> c <> None /\ next <> None) /\
  (critical_density_arcsec p <> None <-> c <> None /\ next <> None) /\
  (forall cosmology : Cosmology,
      c = Some cosmology -> next <> None ->
      exists (g0 : Galaxy) (density_kpc density_arcsec : Q),
        nth_error gs 0 = Some g0 /\
        kpc_per_arcsec p
        = Some (1 / arcsec_per_kpc_proper cosmology (redshift g0)) /\
        critical_density_kpc p = Some density_kpc /\
        density_kpc
        == critical_density_kpc_spec
             (angular_diameter_distance cosmology next)
             (angular_diameter_distance_z1z2 cosmology (redshift g0) next)
             (angular_diameter_distance cosmology (redshift g0)) /\
        critical_density_arcsec p = Some density_arcsec /\
        density_arcsec
        == critical_density_arcsec_spec density_kpc
             (1 / arcsec_per_kpc_proper cosmology (redshift g0))).
Proof.
  destruct c as [cosmology |].
  - intros H. apply Plane_init_with_cosmology in H.
    destruct H as (g0 & Hg0 & _ & _ & Hkpa & _ & _ & _ & _ & Hck & Hca & _).
    rewrite Hck, Hca, Hkpa.
    destruct next as [zn |].
    + repeat split; try congruence.
      intros cosmology' Hc _. inversion Hc; subst cosmology'.
      eexists g0, _, _. repeat split; try reflexivity; try exact Hg0.
      unfold critical_density_kpc_spec, constant_kpc, Qdiv. ring.
    + repeat split; try tauto; try congruence.
  - unfold Plane_init. intros H. inversion H; subst p; clear H. simpl.
    repeat split; try tauto; try congruence.
Qed.

(** C3, amended.  [Plane.__init__] does not validate its galaxies.  Without
    a cosmology it succeeds for every list and keeps it as given; with a
    cosmology it succeeds for every non-empty list whose first galaxy has a
    redshift, whatever the redshifts of the other galaxies; it fails on the
    empty list with [IndexError] and, when the first galaxy has no redshift,
    with the [TypeError] of the cosmology; it never raises
    [RayTracingException].  The planes a [MultiTracer] builds are not empty
    and the galaxies of each have equal redshifts. *)
Theorem plane_galaxies_not_validated :
  (forall (gs : list Galaxy) (mi : MaskedImage) (prev next : option Q)
          (cd : bool),
      exists p, Plane_init gs mi prev next None cd = Ok p /\ galaxies p = gs) /\
  (forall (g : Galaxy) (gs : list Galaxy) (mi : MaskedImage)
          (prev next : option Q) (c : Cosmology) (cd : bool),
      redshift g <> None ->
      exists p, Plane_init (g :: gs) mi prev next (Some c) cd = Ok p /\
                galaxies p = g :: gs) /\
  (forall (mi : MaskedImage) (prev next : option Q) (c : Cosmology)
          (cd : bool),
      Plane_init [] mi prev next (Some c) cd = Err IndexError) /\
  (forall (g : Galaxy) (gs : list Galaxy) (mi : MaskedImage)
          (prev next : option Q) (c : Cosmology) (cd : bool),
      redshift g = None ->
      Plane_init (g :: gs) mi prev next (Some c) cd = Err TypeError) /\
  (forall (gs : list Galaxy) (mi : MaskedImage) (prev next : option Q)
          (c : option Cosmology) (cd : bool) (msg : string),
      Plane_init gs mi prev next c cd <> Err (RayTracingException msg)) /\
  (forall (gs : list Galaxy) (mi : MaskedImage) (c : option Cosmology)
          (t : MultiTracer),
      MultiTracer_init gs mi c = Ok t ->
      forall p, In p (planes t) ->
        galaxies p <> [] /\
        forall g1 g2, In g1 (galaxies p) -> In g2 (galaxies p) ->
          py_eq (redshift g1) (redshift g2) = true).
Proof.
  split; [| split; [| split; [| split; [| split]]]].
  - intros gs mi prev next cd. eexists. split; reflexivity.
  - intros g gs mi prev next c cd Hz.
    destruct (Plane_init_succeeds g gs mi prev next (Some c) cd) as (p & Hp);
      [now right |].
    exists p. split; [exact Hp |]. now apply Plane_init_Ok in Hp.
  - reflexivity.
  - intros g gs mi prev next c cd Hz. unfold Plane_init.
    cbn [index nth_error bind]. rewrite Hz. reflexivity.
  - intros gs mi prev next c cd msg H.
    apply Plane_init_Err in H.
    destruct H as [_ [[H _] | [H _]]]; discriminate.
  - intros gs mi c t H p Hp.
    apply MultiTracer_init_Ok in H. destruct H as (Hs & Ho & Hgr & H).
    apply build_planes_Ok in H. destruct H as [_ H].
    apply In_nth_error in Hp. destruct Hp as (i & Hi).
    destruct (H _ _ Hi) as (prior & Hat).
    apply plane_at_Ok in Hat. destruct Hat as [Hnth _].
    rewrite Hgr, nth_error_map in Hnth.
    destruct (nth_error (planes_redshift_order t) i) as [z |] eqn:Ez;
      [| discriminate].
    simpl in Hnth. injection Hnth as Hgal.
    rewrite galaxies_of_plane_filter in Hgal. split.
    + apply nth_error_In in Ez. rewrite Ho, distinct_redshifts_eq in Ez.
      apply distinct_from_In in Ez. destruct Ez as [Ez _].
      apply in_map_iff in Ez. destruct Ez as (g & Hgz & Hg).
      intros Hnil.
      assert (Hin : In g (galaxies p)).
      { rewrite <- Hgal. apply filter_In. split; [exact Hg |].
        rewrite Hgz. apply py_eq_refl. }
      rewrite Hnil in Hin. contradiction.
    + intros g1 g2 H1 H2. rewrite <- Hgal in H1, H2.
      apply filter_In in H1, H2. destruct H1 as [_ H1], H2 as [_ H2].
      rewrite py_eq_sym in H2. exact (py_eq_trans _ _ _ H1 H2).
Qed.

(** C8, amended.  A galaxy list in which some galaxies have a redshift and
    others have none makes the construction of a [MultiTracer] fail with
    [TypeError], raised when the galaxies are sorted by redshift, whatever
    the cosmology; no galaxy list makes the construction raise
    [RayTracingException]. *)
Theorem mixed_redshifts_raise_TypeError :
  (forall (gs : list Galaxy) (mi : MaskedImage) (c : option Cosmology)
          (g_with g_without : Galaxy),
      In g_with gs -> redshift g_with <> None ->
      In g_without gs -> redshift g_without = None ->
      sorted redshift gs = Err TypeError /\
      MultiTracer_init gs mi c = Err TypeError) /\
  (forall (gs : list Galaxy) (mi : MaskedImage) (c : option Cosmology)
          (msg : string),
      MultiTracer_init gs mi c <> Err (RayTracingException msg)).
Proof.
  split.
  - intros gs mi c g1 g2 H1 Hz1 H2 Hz2.
    assert (Hs : sorted redshift gs = Err TypeError).
    { destruct (sorted redshift gs) as [s | e] eqn:E.
      - exfalso. apply (sorted_Ok_keys _ _ _ _ E) with (a := g2);
          [| exact H2 | exact Hz2].
        destruct gs as [| a [| b l]]; simpl in *; try lia; try contradiction.
        destruct H1 as [<- | []], H2 as [<- | []]. congruence.
      - now rewrite (sorted_Err _ _ _ _ E). }
    split; [exact Hs |]. unfold MultiTracer_init. now rewrite Hs.
  - intros gs mi c msg H. unfold MultiTracer_init in H.
    apply bind_Err in H. destruct H as [H | (s & _ & H)].
    + apply sorted_Err in H. discriminate.
    + apply bind_Err in H. destruct H as [H | (ps & _ & H)];
        [| discriminate].
      apply build_planes_Err in H. destruct H as [H | [H | H]]; discriminate.
Qed.

Lemma MultiTracer_order_sorted (gs : list Galaxy) (mi : MaskedImage)
  (c : option Cosmology) (t : MultiTracer) :
  MultiTracer_init gs mi c = Ok t ->
  StronglySorted redshift_lt (planes_redshift_order t).
Proof.
  intros H. apply MultiTracer_init_Ok in H. destruct H as (Hs & Ho & _).
  rewrite Ho, distinct_redshifts_eq. apply distinct_from_sorted.
  apply StronglySorted_map. exact (sorted_sorted _ _ _ _ Hs).
Qed.

Lemma MultiTracer_order_In (gs : list Galaxy) (mi : MaskedImage)
  (c : option Cosmology) (t : MultiTracer) (z : option Q) :
  MultiTracer_init gs mi c = Ok t ->
  In z (planes_redshift_order t) -> exists g, In g gs /\ redshift g = z.
Proof.
  intros H Hz. apply MultiTracer_init_Ok in H. destruct H as (Hs & Ho & _).
  rewrite Ho, distinct_redshifts_eq in Hz. apply distinct_from_In in Hz.
  destruct Hz as [Hz _]. apply in_map_iff in Hz. destruct Hz as (g & Hg & Hin).
  exists g. split; [| exact Hg]. now apply (sorted_In _ _ _ _ Hs).
Qed.

(** C2.  The planes of a [MultiTracer] follow the distinct redshifts of the
    galaxies in strictly ascending order: every plane redshift is the
    redshift of some input galaxy, every input galaxy's redshift equals one of
    them, and the galaxies of plane [i] are the input galaxies whose redshift
    equals redshift [i], in their input order.  For galaxies a (z=1.0),
    b (z=0.5), c (z=1.0) given in that order the planes are [b] at 0.5
    followed by [a, c] at 1.0. *)
Theorem planes_follow_ascending_redshifts_stably :
  (forall (gs : list Galaxy) (mi : MaskedImage) (c : option Cosmology)
          (t : MultiTracer),
      MultiTracer_init gs mi c = Ok t ->
      StronglySorted redshift_lt (planes_redshift_order t) /\
      (forall z, In z (planes_redshift_order t) ->
                 exists g, In g gs /\ redshift g = z) /\
      (forall g, In g gs ->
                 py_in (redshift g) (planes_redshift_order t) = true) /\
      map galaxies (planes t)
      = map (fun z => filter (fun g => py_eq (redshift g) z) gs)
          (planes_redshift_order t)) /\
  (forall (ia ib ic : nat) (pa pb pc : option Pixelization)
          (mi : MaskedImage) (c : option Cosmology),
      let a := {| galaxy_id := ia; redshift := Some 1; pixelization := pa |} in
      let b :=
        {| galaxy_id := ib; redshift := Some (1 # 2); pixelization := pb |} in
      let c' := {| galaxy_id := ic; redshift := Some 1; pixelization := pc |} in
      exists t,
        MultiTracer_init [a; b; c'] mi c = Ok t /\
        planes_redshift_order t = [Some (1 # 2); Some 1] /\
        map galaxies (planes t) = [[b]; [a; c']]).
Proof.
  split.
  - intros gs mi c t H. split; [exact (MultiTracer_order_sorted _ _ _ _ H) |].
    split; [intros z; exact (MultiTracer_order_In _ _ _ _ z H) |].
    pose proof (MultiTracer_init_Ok _ _ _ _ H) as (Hs & Ho & Hgr & Hb).
    split.
    + intros g Hg. rewrite Ho, distinct_redshifts_eq.
      apply distinct_from_complete; [| reflexivity].
      apply py_in_true. exists (redshift g). split; [| apply py_eq_refl].
      apply in_map. now apply (sorted_In _ _ _ _ Hs).
    + apply build_planes_Ok in Hb. destruct Hb as [Hlen Hb].
      apply nth_error_ext. intros i. rewrite !nth_error_map.
      destruct (nth_error (planes t) i) as [p |] eqn:Ep; simpl.
      * destruct (Hb _ _ Ep) as (prior & Hat).
        apply plane_at_Ok in Hat. destruct Hat as [Hnth _].
        rewrite Hgr, nth_error_map in Hnth.
        destruct (nth_error (planes_redshift_order t) i) as [z |];
          [| discriminate].
        simpl in *. injection Hnth as Hgal.
        rewrite galaxies_of_plane_filter in Hgal.
        rewrite (sorted_filter _ _ z _ _ Hs) in Hgal. now rewrite Hgal.
      * apply nth_error_None in Ep. rewrite Hlen in Ep.
        apply nth_error_None in Ep. now rewrite Ep.
  - intros ia ib ic pa pb pc mi c a b c'.
    destruct c as [c |]; eexists; (split; [reflexivity |]);
      split; reflexivity.
Qed.

Lemma sorted_same_key {A : Type} (key : A -> option Q) (z : Q) (l : list A) :
  (forall a, In a l -> exists z', key a = Some z' /\ z' == z) ->
  sorted key l = Ok l.
Proof.
  induction l as [| x l IH]; simpl; intros H; [reflexivity |].
  rewrite IH by (intros a Ha; apply H; now right). simpl.
  destruct l as [| y l]; [reflexivity |]. simpl.
  destruct (H x (or_introl eq_refl)) as (kx & -> & Hx).
  destruct (H y (or_intror (or_introl eq_refl))) as (ky & -> & Hy).
  simpl. assert (E : Qlt_bool ky kx = false).
  { apply Qlt_bool_false. rewrite Hx, Hy. apply Qle_refl. }
  now rewrite E.
Qed.

(** C10, amended.  A non-empty galaxy list whose galaxies all have one and
    the same numeric redshift makes the construction of a [MultiTracer] fail
    with [IndexError], raised by the look-up of the next plane's redshift (and
    so not with [RayTracingException]); when a [MultiTracer] is constructed
    from a non-empty list, the list has two galaxies of different redshifts
    and the tracer has at least two planes; the empty list constructs a tracer
    without planes. *)
Theorem single_redshift_raises_IndexError :
  (forall (gs : list Galaxy) (mi : MaskedImage) (c : option Cosmology) (z : Q),
      gs <> [] ->
      (forall g, In g gs -> exists z', redshift g = Some z' /\ z' == z) ->
      (exists z0,
          sorted redshift gs = Ok gs /\
          distinct_redshifts (map redshift gs) = [z0] /\
          index [z0] (0 + 1) = Err IndexError) /\
      MultiTracer_init gs mi c = Err IndexError) /\
  (forall (gs : list Galaxy) (mi : MaskedImage) (c : option Cosmology)
          (t : MultiTracer),
      gs <> [] ->
      MultiTracer_init gs mi c = Ok t ->
      (2 <= length (planes t))%nat /\
      exists g1 g2 z1 z2,
        In g1 gs /\ In g2 gs /\
        redshift g1 = Some z1 /\ redshift g2 = Some z2 /\ ~ z1 == z2) /\
  (forall (mi : MaskedImage) (c : option Cosmology),
      exists t, MultiTracer_init [] mi c = Ok t /\ planes t = []).
Proof.
  split; [| split; [| intros mi c; eexists; split; reflexivity]].
  - intros gs mi c z Hne Hall.
    assert (Ho : exists z0, distinct_redshifts (map redshift gs) = [z0]).
    { destruct gs as [| g gs]; [congruence |].
      exists (redshift g). rewrite distinct_redshifts_eq. simpl.
      rewrite distinct_from_all_seen; [reflexivity |].
      intros a Ha. simpl. apply in_map_iff in Ha.
      destruct Ha as (g' & <- & Hg').
      destruct (Hall g (or_introl eq_refl)) as (z0 & -> & H0).
      destruct (Hall g' (or_intror Hg')) as (z' & -> & H').
      simpl. rewrite orb_false_r. apply Qeq_bool_iff.
      now rewrite H0, H'. }
    destruct Ho as (z0 & Ho).
    pose proof (sorted_same_key redshift z gs Hall) as Hs.
    split; [exists z0; repeat split; assumption || reflexivity |].
    unfold MultiTracer_init. rewrite Hs. simpl.
    rewrite Ho. reflexivity.
  - intros gs mi c t Hne H.
    pose proof (MultiTracer_order_sorted _ _ _ _ H) as Hsorted.
    pose proof (fun z => MultiTracer_order_In _ _ _ _ z H) as Hin.
    pose proof (MultiTracer_init_Ok _ _ _ _ H) as (Hs & Ho & _ & Hb).
    apply build_planes_Ok in Hb. destruct Hb as [Hlen Hb].
    assert (Hfirst : planes_redshift_order t <> []).
    { rewrite Ho, distinct_redshifts_eq.
      destruct (galaxies_redshift_order t) as [| g s] eqn:Es.
      - apply sorted_length in Hs. destruct gs; simpl in Hs;
          [congruence | discriminate].
      - simpl. discriminate. }
    assert (Hlen2 : (2 <= length (planes_redshift_order t))%nat).
    { destruct (planes t) as [| p ps] eqn:Ep.
      - simpl in Hlen. destruct (planes_redshift_order t);
          [congruence | discriminate].
      - destruct (Hb 0%nat p eq_refl) as (prior & Hat).
        apply plane_at_Ok in Hat. destruct Hat as [_ Hat].
        destruct Hat as [[Hi _] | (_ & Hi & _)]; [lia | congruence]. }
    split; [lia |].
    destruct (planes_redshift_order t) as [| z0 [| z1 zs]] eqn:Eo;
      simpl in Hlen2; try lia.
    apply StronglySorted_inv in Hsorted. destruct Hsorted as [_ Hall].
    apply Forall_inv in Hall. destruct Hall as (x & y & -> & -> & Hlt).
    destruct (Hin (Some x)) as (g1 & Hg1 & Hz1);
      [simpl; auto |].
    destruct (Hin (Some y)) as (g2 & Hg2 & Hz2);
      [simpl; auto |].
    exists g1, g2, x, y. repeat split; try assumption.
    intros E. rewrite E in Hlt. exact (Qlt_irrefl _ Hlt).
Qed.

End Properties.

(** * The claims on the concrete system *)


Lemma only_last_plane_lacks_deflections_witness :
  exists t p0 p1,
    MultiTracer_init [g_a; g_b; g_c] sample_masked_image None = Ok t /\
    planes t = [p0; p1] /\
    deflections p0
    = Some (deflection_masked_image_for_galaxies (masked_image p0)
              (galaxies p0)) /\
    deflections p1 = None.
Proof.
  eexists. eexists. eexists. split; [reflexivity |].
  split; [reflexivity |].
  pose proof (proj2 only_last_plane_lacks_deflections
                [g_a; g_b; g_c] sample_masked_image None _ eq_refl) as H.
  split.
  - apply (H 0%nat); [reflexivity | simpl; lia].
  - apply (H 1%nat); reflexivity.
Defined.

(** One lens galaxy and two source galaxies: the plane images are [1] and
    [2] at each of the four sub-grid points, and the image of the tracer is
    [3] there. *)
Lemma tracer_image_is_sum_of_plane_images_witness :
  exists t,
    Tracer_init [g_b] [g_a; g_c] sample_masked_image None = Ok t /\
    Plane_generate_image_of_galaxy_light_profiles (image_plane t)
      sample_mapping = [1; 1; 1; 1] /\
    Plane_generate_image_of_galaxy_light_profiles (source_plane t)
      sample_mapping = [2; 2; 2; 2] /\
    Tracer_generate_image_of_galaxy_light_profiles t sample_mapping
    = [3; 3; 3; 3] /\
    nth_error (Tracer_generate_image_of_galaxy_light_profiles t sample_mapping)
      0 = Some 3.
Proof.
  eexists. split; [reflexivity |].
  split; [reflexivity |]. split; [reflexivity |]. split.
  - exact (proj1 (proj1 (proj2 (proj2 tracer_image_is_sum_of_plane_images))
                    [g_b] [g_a; g_c] sample_masked_image None _ sample_mapping
                    eq_refl)).
  - match goal with
    | |- nth_error (Tracer_generate_image_of_galaxy_light_profiles ?t _) _ = _ =>
        exact (proj1 (proj2 (proj2 (proj2 tracer_image_is_sum_of_plane_images)))
                 t sample_mapping 0%nat 1 2 eq_refl eq_refl)
    end.
Defined.

Lemma pixelization_matrices_of_plane_witness :
  exists p,
    Plane_init [g_a; g_pix 4 7; g_b] sample_masked_image None None None false
    = Ok p /\
    generate_pixelization_matrices_of_galaxy p sample_mapping
    = Ok (Some 7%nat).
Proof.
  eexists. split; [reflexivity |].
  assert (Hnone : forall g', In g' ([g_a] ++ [g_b]) -> pixelization g' = None)
    by (intros g' [<- | [<- | []]]; reflexivity).
  match goal with
  | |- generate_pixelization_matrices_of_galaxy ?p _ = _ =>
      exact (proj2 (pixelization_matrices_of_plane p sample_mapping)
               [g_a] [g_b] (g_pix 4 7) 7%nat eq_refl eq_refl Hnone)
  end.
Defined.

Lemma trace_needs_computed_deflections_witness :
  exists p,
    Plane_init [g_a] sample_masked_image None None None false = Ok p /\
    trace_to_next_plane p = Err AttributeError.
Proof.
  eexists. split; [reflexivity |].
  exact (proj2 (proj1 (trace_needs_computed_deflections
                         [g_a] sample_masked_image None None None false _
                         eq_refl) eq_refl)).
Defined.

Lemma critical_density_of_plane_witness :
  exists p,
    Plane_init [g_b] sample_masked_image None (Some 1) (Some sample_cosmology)
      true = Ok p /\
    critical_density_kpc p <> None.
Proof.
  eexists. split; [reflexivity |].
  apply (proj1 (critical_density_of_plane
                  [g_b] sample_masked_image None (Some 1)
                  (Some sample_cosmology) true _ eq_refl)).
  split; discriminate.
Defined.

Lemma plane_galaxies_not_validated_witness :
  exists t,
    MultiTracer_init [g_a; g_b; g_c] sample_masked_image None = Ok t /\
    forall p, In p (planes t) -> galaxies p <> [].
Proof.
  eexists. split; [reflexivity |].
  intros p Hp.
  exact (proj1 (proj2 (proj2 (proj2 (proj2 (proj2
                  plane_galaxies_not_validated))))
                  [g_a; g_b; g_c] sample_masked_image None _ eq_refl p Hp)).
Defined.

Lemma mixed_redshifts_raise_TypeError_witness :
  MultiTracer_init [g_a; g_none] sample_masked_image (Some sample_cosmology)
  = Err TypeError.
Proof.
  apply (proj1 mixed_redshifts_raise_TypeError
           [g_a; g_none] sample_masked_image (Some sample_cosmology)
           g_a g_none).
  - simpl; auto.
  - discriminate.
  - simpl; auto.
  - reflexivity.
Defined.

Lemma planes_follow_ascending_redshifts_stably_witness :
  exists t,
    MultiTracer_init [g_a; g_b; g_c] sample_masked_image None = Ok t /\
    map galaxies (planes t)
    = map (fun z => filter (fun g => py_eq (redshift g) z) [g_a; g_b; g_c])
        (planes_redshift_order t).
Proof.
  eexists. split; [reflexivity |].
  apply (proj1 planes_follow_ascending_redshifts_stably
           [g_a; g_b; g_c] sample_masked_image None _ eq_refl).
Defined.

Lemma single_redshift_raises_IndexError_witness :
  MultiTracer_init [g_a; g_c] sample_masked_image (Some sample_cosmology)
  = Err IndexError.
Proof.
  apply (proj1 single_redshift_raises_IndexError
           [g_a; g_c] sample_masked_image (Some sample_cosmology) 1).
  - discriminate.
  - intros g [<- | [<- | []]]; exists 1; split; reflexivity.
Defined.

(** ** Where the code departs from the claims as stated *)

(** C3 as stated fails: without a cosmology a plane is built from the empty
    list and from two galaxies of redshifts 1 and 1/2, and keeps them. *)
Lemma plane_accepts_empty_and_mixed_galaxies :
  (exists p,
      Plane_init [] sample_masked_image None None None false = Ok p /\
      galaxies p = []) /\
  (exists p,
      Plane_init [g_a; g_b] sample_masked_image None None None false = Ok p /\
      galaxies p = [g_a; g_b] /\
      py_eq (redshift g_a) (redshift g_b) = false) /\
  ~ (forall gs : list Galaxy,
        gs = [] \/ (exists g1 g2, In g1 gs /\ In g2 gs /\
                                  py_eq (redshift g1) (redshift g2) = false) ->
        exists msg,
          Plane_init gs sample_masked_image None None None false
          = Err (RayTracingException msg)).
Proof.
  split; [eexists; split; reflexivity |].
  split; [eexists; repeat split; reflexivity |].
  intros H. destruct (H [] (or_introl eq_refl)) as (msg & Hmsg).
  discriminate.
Qed.

(** C7 as stated fails: the image plane of a two-plane system has no
    previous redshift and yet its critical surface density is computed. *)
Lemma critical_density_without_previous_redshift :
  (exists p,
      Plane_init [g_b] sample_masked_image None (Some 1)
        (Some sample_cosmology) true = Ok p /\
      ang_to_previous_plane_kpc p = None /\
      critical_density_kpc p <> None /\
      critical_density_arcsec p <> None) /\
  ~ (forall (prev next : option Q) (p : Plane),
        Plane_init [g_b] sample_masked_image prev next
          (Some sample_cosmology) true = Ok p ->
        (critical_density_kpc p <> None <-> prev <> None /\ next <> None)).
Proof.
  split.
  - eexists. split; [reflexivity |]. simpl. repeat split; discriminate.
  - intros H. specialize (H None (Some 1) _ eq_refl). simpl in H.
    destruct H as [H _]. destruct H as [H _]; [discriminate |].
    now apply H.
Qed.

(** C8 as stated fails: with a galaxy at redshift 1 and a galaxy without
    redshift the construction raises [TypeError], not
    [RayTracingException]. *)
Lemma mixed_redshifts_do_not_raise_RayTracingException :
  MultiTracer_init [g_a; g_none] sample_masked_image (Some sample_cosmology)
  = Err TypeError /\
  ~ (exists msg,
        MultiTracer_init [g_a; g_none] sample_masked_image
          (Some sample_cosmology) = Err (RayTracingException msg)).
Proof.
  split; [reflexivity |]. intros (msg & H). discriminate.
Qed.

(** C10 as stated fails: the empty galaxy list spans no redshift at all and
    yet a [MultiTracer] is constructed from it, with no planes; and two
    galaxies that share the absence of a redshift raise [TypeError], not
    [IndexError]. *)
Lemma empty_galaxy_list_constructs_MultiTracer :
  (exists t,
      MultiTracer_init [] sample_masked_image (Some sample_cosmology) = Ok t /\
      planes t = []) /\
  MultiTracer_init [g_none; g_none] sample_masked_image
    (Some sample_cosmology) = Err TypeError /\
  ~ (forall (gs : list Galaxy) (t : MultiTracer),
        MultiTracer_init gs sample_masked_image (Some sample_cosmology)
        = Ok t ->
        exists g1 g2,
          In g1 gs /\ In g2 gs /\
          py_eq (redshift g1) (redshift g2) = false).
Proof.
  split; [eexists; split; reflexivity |].
  split; [reflexivity |].
  intros H. destruct (H [] _ eq_refl) as (g1 & _ & [] & _).
Qed.

(** * Further properties of the module *)

Section Further.

Context {T : ExternalTypes} {M : ExternalMethods}.

(** ** The plane loop, turn by turn *)

(** Plane [j] is built from the planes before it. *)
Lemma fold_append_plane_prefix (order : list (option Q))
  (groups : list (list Galaxy)) (mi : MaskedImage) (c : option Cosmology)
  (m k : nat) (acc planes : list Plane) :
  fold_left (append_plane order groups mi c) (seq k m) (Ok acc) = Ok planes ->
  length acc = k ->
  forall j p, (k <= j)%nat -> nth_error planes j = Some p ->
    plane_at order groups mi c (firstn j planes) j = Ok p.
Proof.
  revert k acc. induction m as [| m IH]; simpl; intros k acc H Hlen j p Hj Hp.
  - inversion H; subst planes.
    assert (nth_error acc j <> None) by congruence.
    apply nth_error_Some in H0. lia.
  - destruct (plane_at order groups mi c acc k) as [p0 | e] eqn:E; simpl in H;
      [| rewrite fold_append_plane_Err in H; discriminate].
    destruct (Nat.eq_dec j k) as [-> | Hne].
    + pose proof (fold_append_plane_Ok _ _ _ _ _ _ _ _ H)
        as (rest & Hplanes & _ & _).
      rewrite <- app_assoc in Hplanes. simpl in Hplanes. subst planes k.
      rewrite nth_error_app2 in Hp by lia.
      rewrite Nat.sub_diag in Hp. simpl in Hp.
      injection Hp as <-.
      rewrite firstn_app, Nat.sub_diag, firstn_all. simpl.
      rewrite app_nil_r. exact E.
    + apply (IH (S k) (acc ++ [p0])); try assumption; try lia.
      rewrite length_app. simpl. lia.
Qed.

Lemma build_planes_prefix (order : list (option Q))
  (groups : list (list Galaxy)) (mi : MaskedImage) (c : option Cosmology)
  (planes : list Plane) :
  build_planes order groups mi c = Ok planes ->
  forall j p, nth_error planes j = Some p ->
    plane_at order groups mi c (firstn j planes) j = Ok p.
Proof.
  unfold build_planes. intros H j p Hp.
  apply (fold_append_plane_prefix _ _ _ _ _ _ _ _ H eq_refl j p); [lia | exact Hp].
Qed.

(** The arguments with which a turn of the loop calls [Plane]. *)
Lemma plane_at_args (order : list (option Q)) (groups : list (list Galaxy))
  (mi : MaskedImage) (c : option Cosmology) (prior : list Plane) (i : nat)
  (p : Plane) :
  plane_at order groups mi c prior i = Ok p ->
  exists (cd : bool) (prev next : option Q) (grid : MaskedImage)
         (gs : list Galaxy),
    nth_error groups i = Some gs /\
    Plane_init gs grid prev next c cd = Ok p /\
    (i = 0%nat -> grid = mi /\ prev = None) /\
    (i <> 0%nat ->
     nth_error order (i - 1) = Some prev /\
     exists q, nth_error prior (i - 1) = Some q /\
               trace_to_next_plane q = Ok grid) /\
    ((S i < length order)%nat ->
     nth_error order (i + 1) = Some next /\ cd = true) /\
    (S i = length order -> next = None /\ cd = false) /\
    (S i <= length order)%nat.
Proof.
  unfold plane_at. intros H.
  apply bind_Ok in H. destruct H as ([[[cd prev] next] grid] & Hargs & H).
  apply bind_Ok in H. destruct H as (gs & Hgs & H).
  apply index_Ok in Hgs. exists cd, prev, next, grid, gs.
  split; [exact Hgs |]. split; [exact H |]. clear H Hgs.
  destruct (i =? 0)%nat eqn:E0.
  { apply Nat.eqb_eq in E0. subst i.
    apply bind_Ok in Hargs. destruct Hargs as (nx & Hnx & Hargs).
    inversion Hargs; subst. apply index_Ok in Hnx.
    assert (Hlen : (1 < length order)%nat).
    { apply nth_error_Some. intros Hn. simpl in Hn, Hnx. congruence. }
    repeat split; try congruence; try lia. }
  apply Nat.eqb_neq in E0.
  destruct (i <? length order - 1)%nat eqn:E1.
  { apply Nat.ltb_lt in E1.
    apply bind_Ok in Hargs. destruct Hargs as (pv & Hpv & Hargs).
    apply bind_Ok in Hargs. destruct Hargs as (nx & Hnx & Hargs).
    apply bind_Ok in Hargs. destruct Hargs as (pp & Hpp & Hargs).
    apply bind_Ok in Hargs. destruct Hargs as (ng & Hng & Hargs).
    inversion Hargs; subst.
    apply index_Ok in Hpv, Hnx, Hpp.
    repeat split; try congruence; try lia; eauto. }
  destruct (i =? length order - 1)%nat eqn:E2; [| discriminate].
  apply Nat.eqb_eq in E2. apply Nat.ltb_ge in E1.
  apply bind_Ok in Hargs. destruct Hargs as (pv & Hpv & Hargs).
  apply bind_Ok in Hargs. destruct Hargs as (pp & Hpp & Hargs).
  apply bind_Ok in Hargs. destruct Hargs as (ng & Hng & Hargs).
  inversion Hargs; subst.
  apply index_Ok in Hpv, Hpp.
  repeat split; try congruence; try lia; eauto.
Qed.

Lemma MultiTracer_plane_at (gs : list Galaxy) (mi : MaskedImage)
  (c : option Cosmology) (t : MultiTracer) (j : nat) (p : Plane) :
  MultiTracer_init gs mi c = Ok t ->
  nth_error (planes t) j = Some p ->
  length (planes t) = length (planes_redshift_order t) /\
  plane_at (planes_redshift_order t) (planes_galaxies t) mi c
    (firstn j (planes t)) j = Ok p.
Proof.
  intros H Hp. apply MultiTracer_init_Ok in H. destruct H as (_ & _ & _ & H).
  split; [now apply build_planes_Ok in H |].
  exact (build_planes_prefix _ _ _ _ _ H j p Hp).
Qed.

Lemma MultiTracer_chain (gs : list Galaxy) (mi : MaskedImage)
  (c : option Cosmology) (t : MultiTracer) :
  MultiTracer_init gs mi c = Ok t ->
  (forall p, nth_error (planes t) 0 = Some p -> masked_image p = mi) /\
  (forall i p q,
      nth_error (planes t) i = Some p ->
      nth_error (planes t) (S i) = Some q ->
      trace_to_next_plane p = Ok (masked_image q) /\
      deflections p
      = Some (deflection_masked_image_for_galaxies (masked_image p)
                (galaxies p))).
Proof.
  intros H. split.
  - intros p Hp. destruct (MultiTracer_plane_at _ _ _ _ _ _ H Hp) as [_ Hat].
    apply plane_at_args in Hat.
    destruct Hat as (cd & prev & next & grid & g & _ & Hinit & H0 & _).
    apply Plane_init_Ok in Hinit. destruct Hinit as (_ & Hm & _).
    destruct (H0 eq_refl) as [-> _]. exact Hm.
  - intros i p q Hp Hq.
    destruct (MultiTracer_plane_at _ _ _ _ _ _ H Hq) as [Hlen Hat].
    apply plane_at_args in Hat.
    destruct Hat as (cd & prev & next & grid & g & _ & Hinit & _ & HS & _).
    apply Plane_init_Ok in Hinit. destruct Hinit as (_ & Hm & _).
    destruct HS as (_ & q0 & Hq0 & Htr); [discriminate |].
    rewrite nth_error_firstn in Hq0. simpl in Hq0.
    rewrite Nat.sub_0_r in Hq0.
    assert (E : (i <? S i)%nat = true) by (apply Nat.ltb_lt; lia).
    rewrite E, Hp in Hq0. injection Hq0 as <-. rewrite Hm.
    split; [exact Htr |].
    destruct (MultiTracer_plane_at _ _ _ _ _ _ H Hp) as [_ Hat].
    apply plane_at_Ok in Hat. destruct Hat as [_ [[_ Hd] | (Hi & _ & _)]];
      [exact Hd |].
    assert (nth_error (planes t) (S i) <> None) by congruence.
    apply nth_error_Some in H0. lia.
Qed.

(** X1.  The grids of a multi-plane tracer form a chain: the first plane works on
    the grids given to the constructor, and every later plane on the grids
    its predecessor is traced to, that is the predecessor's grids displaced
    by the deflections of the predecessor's own galaxies. *)
Theorem multi_plane_grids_are_chained (gs : list Galaxy) (mi : MaskedImage)
  (c : option Cosmology) (t : MultiTracer) :
  MultiTracer_init gs mi c = Ok t ->
  (forall p, nth_error (planes t) 0 = Some p -> masked_image p = mi) /\
  (forall i p q,
      nth_error (planes t) i = Some p ->
      nth_error (planes t) (S i) = Some q ->
      trace_to_next_plane p = Ok (masked_image q) /\
      masked_image q
      = traced_masked_image_for_deflections (masked_image p)
          (deflection_masked_image_for_galaxies (masked_image p)
             (galaxies p))).
Proof.
  intros H. destruct (MultiTracer_chain _ _ _ _ H) as [H0 HS].
  split; [exact H0 |]. intros i p q Hp Hq.
  destruct (HS i p q Hp Hq) as [Htr Hd]. split; [exact Htr |].
  unfold trace_to_next_plane in Htr. rewrite Hd in Htr. congruence.
Qed.

Lemma redshift_lt_sorted_Some (l : list (option Q)) :
  StronglySorted redshift_lt l -> (2 <= length l)%nat ->
  forall z, In z l -> z <> None.
Proof.
  intros Hs Hlen z Hz. destruct l as [| a [| b l]]; simpl in Hlen; try lia.
  apply StronglySorted_inv in Hs. destruct Hs as [_ Hall].
  rewrite Forall_forall in Hall.
  destruct Hz as [<- | Hz].
  - destruct (Hall b (or_introl eq_refl)) as (x & y & -> & _). discriminate.
  - destruct (Hall z Hz) as (x & y & _ & -> & _). discriminate.
Qed.

Lemma Plane_init_cosmology (gs : list Galaxy) (mi : MaskedImage)
  (prev next : option Q) (c : Cosmology) (cd : bool) (p : Plane) :
  Plane_init gs mi prev next (Some c) cd = Ok p ->
  exists g0,
    nth_error gs 0 = Some g0 /\
    arcsec_per_kpc p = Some (arcsec_per_kpc_proper c (redshift g0)) /\
    ang_to_earth_kpc p = Some (angular_diameter_distance c (redshift g0)) /\
    ang_to_previous_plane_kpc p
    = match prev with
      | Some _ => Some (angular_diameter_distance_z1z2 c prev (redshift g0))
      | None => None
      end /\
    ang_to_next_plane_kpc p
    = match next with
      | Some _ => Some (angular_diameter_distance_z1z2 c (redshift g0) next)
      | None => None
      end /\
    ang_next_plane_to_earth_kpc p
    = match next with
      | Some _ => Some (angular_diameter_distance c next)
      | None => None
      end /\
    (critical_density_kpc p <> None <-> next <> None).
Proof.
  intros H. apply Plane_init_with_cosmology in H.
  destruct H as (g0 & Hg0 & _ & Ha & _ & He & Hp & Hn & Hne & Hck & _).
  exists g0. rewrite Hck. repeat split; try assumption;
    destruct next; congruence.
Qed.

(** X2.  With a cosmology, the planes of a multi-plane tracer carry their
    cosmological scalars by position: all have the conversion to kpc, all but
    the first the distance to the previous plane, and all but the last the
    critical surface density. *)
Theorem multi_plane_cosmology_by_position (gs : list Galaxy)
  (mi : MaskedImage) (c : Cosmology) (t : MultiTracer) (i : nat) (p : Plane) :
  MultiTracer_init gs mi (Some c) = Ok t ->
  nth_error (planes t) i = Some p ->
  arcsec_per_kpc p <> None /\
  (ang_to_previous_plane_kpc p <> None <-> i <> 0%nat) /\
  (critical_density_kpc p <> None <-> (S i < length (planes t))%nat) /\
  (ang_to_next_plane_kpc p <> None <-> (S i < length (planes t))%nat).
Proof.
  intros H Hp.
  pose proof (MultiTracer_order_sorted _ _ _ _ H) as Hsorted.
  destruct (MultiTracer_plane_at _ _ _ _ _ _ H Hp) as [Hlen Hat].
  rewrite Hlen.
  set (order := planes_redshift_order t) in *.
  pose proof (plane_at_Ok _ _ _ _ _ _ _ Hat) as [_ Hpos].
  assert (Hn2 : (2 <= length order)%nat).
  { destruct Hpos as [[Hi _] | (Hi & Hi0 & _)]; lia. }
  pose proof (redshift_lt_sorted_Some _ Hsorted Hn2) as HSome.
  apply plane_at_args in Hat.
  destruct Hat as (cd & prev & next & grid & g & _ & Hinit & H0 & HS & Hlt
                   & Hlast & Hle).
  apply Plane_init_cosmology in Hinit.
  destruct Hinit as (g0 & _ & Ha & _ & Hprev & Hnext & _ & Hcrit).
  split; [congruence |].
  assert (Hp' : prev <> None <-> i <> 0%nat).
  { split.
    - intros Hne ->. destruct (H0 eq_refl) as [_ E]. congruence.
    - intros Hne. destruct (HS Hne) as [Hin _].
      apply HSome. exact (nth_error_In _ _ Hin). }
  assert (Hn' : next <> None <-> (S i < length order)%nat).
  { split.
    - intros Hne. destruct (Nat.eq_dec (S i) (length order)) as [E | E];
        [| lia].
      destruct (Hlast E) as [E' _]. congruence.
    - intros Hi. destruct (Hlt Hi) as [Hin _].
      apply HSome. exact (nth_error_In _ _ Hin). }
  split; [| split].
  - rewrite <- Hp', Hprev. destruct prev; split; congruence.
  - rewrite <- Hn'. exact Hcrit.
  - rewrite <- Hn', Hnext. destruct next; split; congruence.
Qed.

(** ** The planes partition the galaxies *)

Section Grouping.

Variables (A : Type) (key : A -> option Q).

Lemma insert_by_Permutation (x : A) (l r : list A) :
  insert_by key x l = Ok r -> Permutation (x :: l) r.
Proof.
  revert r. induction l as [| y l IH]; simpl; intros r H.
  - inversion H; subst. apply Permutation_refl.
  - apply bind_Ok in H. destruct H as (b & _ & H). destruct b.
    + apply bind_Ok in H. destruct H as (r' & Hr' & H).
      inversion H; subst r.
      apply perm_trans with (y :: x :: l); [apply perm_swap |].
      apply perm_skip. now apply IH.
    + inversion H; subst r. apply Permutation_refl.
Qed.

Lemma sorted_Permutation (l s : list A) :
  sorted key l = Ok s -> Permutation l s.
Proof.
  revert s. induction l as [| x l IH]; simpl; intros s H.
  - inversion H; subst. apply perm_nil.
  - apply bind_Ok in H. destruct H as (s' & Hs' & H).
    apply perm_trans with (x :: s'); [apply perm_skip; now apply IH |].
    now apply insert_by_Permutation.
Qed.

Lemma py_in_snoc (z k : option Q) (seen : list (option Q)) :
  py_in z (seen ++ [k]) = py_in z seen || py_eq z k.
Proof. rewrite py_in_app. simpl. now rewrite orb_false_r. Qed.

Lemma py_in_eq (z k : option Q) (seen : list (option Q)) :
  py_eq z k = true -> py_in z seen = py_in k seen.
Proof.
  intros E. apply eq_true_iff_eq. rewrite !py_in_true.
  split; intros (b & Hb & Hzb); exists b; (split; [exact Hb |]).
  - rewrite py_eq_sym in E. exact (py_eq_trans _ _ _ E Hzb).
  - exact (py_eq_trans _ _ _ E Hzb).
Qed.

Lemma filter_after_key (k : option Q) (seen : list (option Q)) (l : list A) :
  Forall (fun a => redshift_lt k (key a)) l ->
  filter (fun a => py_eq (key a) k) l = [] /\
  filter (fun a => negb (py_in (key a) (seen ++ [k]))) l
  = filter (fun a => negb (py_in (key a) seen)) l.
Proof.
  induction 1 as [| a l Ha Hl [IH1 IH2]]; simpl; [auto |].
  assert (E : py_eq (key a) k = false).
  { destruct Ha as (x & y & -> & -> & Hlt).
    destruct (py_eq (Some y) (Some x)) eqn:E; [| reflexivity].
    apply py_eq_Some in E. rewrite E in Hlt.
    exfalso. exact (Qlt_irrefl _ Hlt). }
  rewrite E, py_in_snoc, E, orb_false_r, IH1, IH2. auto.
Qed.

Lemma filter_from_key (k : option Q) (seen : list (option Q)) (l : list A) :
  StronglySorted (fun a b => redshift_le (key a) (key b)) l ->
  Forall (fun a => redshift_le k (key a)) l ->
  py_in k seen = false ->
  filter (fun a => py_eq (key a) k) l
  ++ filter (fun a => negb (py_in (key a) (seen ++ [k]))) l
  = filter (fun a => negb (py_in (key a) seen)) l.
Proof.
  intros Hs Hk Hseen. induction l as [| y l IH]; [reflexivity |].
  apply StronglySorted_inv in Hs. destruct Hs as [Hs Hy].
  pose proof (Forall_inv Hk) as Hky. apply Forall_inv_tail in Hk.
  destruct (py_eq (key y) k) eqn:E.
  - simpl. rewrite E, py_in_snoc, E, orb_true_r. simpl.
    rewrite (py_in_eq _ _ seen E), Hseen. simpl.
    f_equal. now apply IH.
  - assert (Hall : Forall (fun a => redshift_lt k (key a)) (y :: l)).
    { assert (Hlt : redshift_lt k (key y)) by now apply redshift_le_lt.
      constructor; [exact Hlt |].
      rewrite Forall_forall in Hy |- *. intros a Ha.
      destruct Hlt as (x & ky & -> & Ey & Hlt).
      destruct (Hy a Ha) as (ky' & ka & Ey' & -> & Hle).
      exists x, ka. repeat split.
      assert (ky' = ky) by congruence. subst ky'.
      exact (Qlt_le_trans _ _ _ Hlt Hle). }
    destruct (filter_after_key k seen _ Hall) as [-> ->]. reflexivity.
Qed.

(** Taking, for each distinct key in turn, the elements with that key
    gives back a list that is sorted by key. *)
Lemma groups_concat (seen : list (option Q)) (s : list A) :
  StronglySorted (fun a b => redshift_le (key a) (key b)) s ->
  concat (map (fun z => filter (fun a => py_eq (key a) z) s)
            (distinct_from seen (map key s)))
  = filter (fun a => negb (py_in (key a) seen)) s.
Proof.
  revert seen. induction s as [| x s IH]; intros seen Hs; [reflexivity |].
  apply StronglySorted_inv in Hs. destruct Hs as [Hs Hx].
  assert (Hdrop : forall D : list (option Q),
             (forall z, In z D -> py_in z (seen ++ [key x]) = false) ->
             map (fun z => filter (fun a => py_eq (key a) z) (x :: s)) D
             = map (fun z => filter (fun a => py_eq (key a) z) s) D).
  { intros D HD. apply map_ext_in. intros z Hz. simpl.
    specialize (HD z Hz). rewrite py_in_snoc in HD.
    apply orb_false_iff in HD. destruct HD as [_ HD].
    rewrite py_eq_sym in HD. now rewrite HD. }
  assert (HD : forall z, In z (distinct_from (seen ++ [key x]) (map key s)) ->
                         py_in z (seen ++ [key x]) = false).
  { intros z Hz. now apply distinct_from_In in Hz. }
  cbn [map distinct_from]. destruct (py_in (key x) seen) eqn:Ex.
  - rewrite (Hdrop _ HD), (IH _ Hs). cbn [filter]. rewrite Ex. cbn [negb].
    apply filter_ext. intros a. rewrite py_in_snoc.
    destruct (py_eq (key a) (key x)) eqn:E; [| now rewrite orb_false_r].
    now rewrite (py_in_eq _ _ seen E), Ex.
  - cbn [map concat]. rewrite (Hdrop _ HD), (IH _ Hs). cbn [filter].
    rewrite py_eq_refl, Ex. cbn [negb app]. f_equal.
    now apply filter_from_key.
Qed.

End Grouping.

Lemma MultiTracer_planes_galaxies (gs : list Galaxy) (mi : MaskedImage)
  (c : option Cosmology) (t : MultiTracer) :
  MultiTracer_init gs mi c = Ok t ->
  map galaxies (planes t) = planes_galaxies t.
Proof.
  intros H.
  pose proof (MultiTracer_init_Ok _ _ _ _ H) as (_ & _ & Hgr & Hb).
  apply build_planes_Ok in Hb. destruct Hb as [Hlen Hb].
  apply nth_error_ext. intros i. rewrite nth_error_map.
  destruct (nth_error (planes t) i) as [p |] eqn:Ep; simpl.
  - destruct (Hb _ _ Ep) as (prior & Hat).
    apply plane_at_Ok in Hat. destruct Hat as [Hnth _]. now rewrite Hnth.
  - apply nth_error_None in Ep. symmetry. apply nth_error_None.
    rewrite Hgr, length_map. lia.
Qed.

(** X3.  The planes of a multi-plane tracer partition the galaxies: read plane
    after plane, their galaxies are the galaxies in redshift order, which are
    the input galaxies rearranged; none is lost and none appears twice. *)
Theorem multi_plane_galaxies_partition (gs : list Galaxy) (mi : MaskedImage)
  (c : option Cosmology) (t : MultiTracer) :
  MultiTracer_init gs mi c = Ok t ->
  concat (map galaxies (planes t)) = galaxies_redshift_order t /\
  Permutation gs (concat (map galaxies (planes t))) /\
  planes_galaxies t = map galaxies (planes t).
Proof.
  intros H.
  pose proof (MultiTracer_planes_galaxies _ _ _ _ H) as Hpg.
  pose proof (MultiTracer_init_Ok _ _ _ _ H) as (Hs & Ho & Hgr & _).
  assert (E : concat (map galaxies (planes t)) = galaxies_redshift_order t).
  { rewrite Hpg, Hgr, Ho, distinct_redshifts_eq.
    rewrite (map_ext _ _ (galaxies_of_plane_filter (galaxies_redshift_order t))).
    rewrite groups_concat by exact (sorted_sorted _ _ _ _ Hs).
    generalize (galaxies_redshift_order t). intros l.
    induction l as [| g l IH]; simpl; [reflexivity | f_equal; exact IH]. }
  split; [exact E |]. split; [| now symmetry].
  rewrite E. exact (sorted_Permutation _ _ _ _ Hs).
Qed.

(** ** When the construction of a multi-plane tracer succeeds *)

Lemma sorted_Ok_of_keys {A : Type} (key : A -> option Q) (l : list A) :
  (forall a, In a l -> key a <> None) -> exists s, sorted key l = Ok s.
Proof.
  induction l as [| x l IH]; simpl; intros Hk; [eauto |].
  destruct IH as (s & Hs); [intros a Ha; apply Hk; now right |].
  rewrite Hs. simpl.
  assert (Hs' : forall a, In a s -> key a <> None).
  { intros a Ha. apply Hk. right. now apply (sorted_In _ _ _ _ Hs). }
  assert (Hx : key x <> None) by (apply Hk; now left).
  clear Hs Hk. induction s as [| y s IHs]; simpl; [eauto |].
  destruct (key y) as [ky |] eqn:Ey; [| exfalso; apply (Hs' y); simpl; auto].
  destruct (key x) as [kx |] eqn:Ex; [| congruence].
  simpl. destruct (Qlt_bool ky kx); [| eauto].
  destruct IHs as (r & Hr); [intros a Ha; apply Hs'; now right |].
  rewrite Hr. simpl. eauto.
Qed.

Lemma index_lt {A : Type} (l : list A) (i : nat) :
  (i < length l)%nat -> exists a, index l i = Ok a /\ nth_error l i = Some a.
Proof.
  intros H. unfold index. apply nth_error_Some in H.
  destruct (nth_error l i) as [a |]; [eauto | congruence].
Qed.

Lemma Plane_init_group (gs : list Galaxy) (mi : MaskedImage)
  (prev next : option Q) (c : option Cosmology) (cd : bool) :
  gs <> [] /\ (forall a, In a gs -> redshift a <> None) ->
  exists p, Plane_init gs mi prev next c cd = Ok p.
Proof.
  destruct gs as [| g gs]; [intros [H _]; congruence |]. intros [_ H].
  apply Plane_init_succeeds. right. apply H. now left.
Qed.

(** A turn of the loop succeeds when the order has two redshifts or more,
    every plane has a galaxy, every galaxy has a redshift, and the previous
    plane has its deflections. *)
Lemma plane_at_total (order : list (option Q)) (groups : list (list Galaxy))
  (mi : MaskedImage) (c : option Cosmology) (prior : list Plane) (i : nat) :
  (2 <= length order)%nat -> (i < length order)%nat ->
  length groups = length order ->
  (forall j g, nth_error groups j = Some g ->
               g <> [] /\ forall a, In a g -> redshift a <> None) ->
  length prior = i ->
  (forall q, nth_error prior (i - 1) = Some q -> deflections q <> None) ->
  exists p, plane_at order groups mi c prior i = Ok p.
Proof.
  intros Hn Hi Hgl Hgne Hprior Hdefl. unfold plane_at.
  destruct (index_lt groups i) as (g & Eg & Hg); [lia |].
  pose proof (Hgne _ _ Hg) as Hne.
  assert (Htrace : i <> 0%nat ->
            exists q grid, index prior (i - 1) = Ok q /\
                           trace_to_next_plane q = Ok grid).
  { intros Hi0. destruct (index_lt prior (i - 1)) as (q & Eq & Hq); [lia |].
    exists q. unfold trace_to_next_plane.
    specialize (Hdefl q Hq). destruct (deflections q); [eauto | congruence]. }
  destruct (i =? 0)%nat eqn:E0.
  { destruct (index_lt order (i + 1)) as (nx & -> & _).
    { apply Nat.eqb_eq in E0. lia. }
    cbn [bind]. rewrite Eg. cbn [bind]. now apply Plane_init_group. }
  apply Nat.eqb_neq in E0.
  destruct (Htrace E0) as (q & grid & -> & Hgrid).
  destruct (index_lt order (i - 1)) as (pv & -> & _); [lia |].
  destruct (i <? length order - 1)%nat eqn:E1.
  { apply Nat.ltb_lt in E1.
    destruct (index_lt order (i + 1)) as (nx & -> & _); [lia |].
    cbn [bind]. rewrite Hgrid. cbn [bind]. rewrite Eg. cbn [bind].
    now apply Plane_init_group. }
  apply Nat.ltb_ge in E1.
  assert (E2 : (i =? length order - 1)%nat = true) by (apply Nat.eqb_eq; lia).
  rewrite E2. cbn [bind]. rewrite Hgrid. cbn [bind]. rewrite Eg. cbn [bind].
  now apply Plane_init_group.
Qed.

Lemma fold_append_plane_total (order : list (option Q))
  (groups : list (list Galaxy)) (mi : MaskedImage) (c : option Cosmology)
  (m k : nat) (acc : list Plane) :
  (2 <= length order)%nat -> length groups = length order ->
  (forall j g, nth_error groups j = Some g ->
               g <> [] /\ forall a, In a g -> redshift a <> None) ->
  (k + m = length order)%nat -> length acc = k ->
  (forall j q, nth_error acc j = Some q -> (S j < length order)%nat ->
               deflections q <> None) ->
  exists planes,
    fold_left (append_plane order groups mi c) (seq k m) (Ok acc) = Ok planes.
Proof.
  intros Hn Hgl Hgne. revert k acc.
  induction m as [| m IH]; simpl; intros k acc Hkm Hlen Hinv; [eauto |].
  destruct (plane_at_total order groups mi c acc k) as (p0 & Hp0);
    try assumption; try lia.
  { intros q Hq. apply (Hinv _ _ Hq).
    assert (nth_error acc (k - 1) <> None) by congruence.
    apply nth_error_Some in H. lia. }
  rewrite Hp0. cbn [bind].
  apply (IH (S k) (acc ++ [p0])); [lia | rewrite length_app; simpl; lia |].
  intros j q Hq Hj. destruct (Nat.lt_ge_cases j (length acc)) as [Hlt | Hge].
  - rewrite nth_error_app1 in Hq by exact Hlt. exact (Hinv _ _ Hq Hj).
  - rewrite nth_error_app2 in Hq by exact Hge.
    destruct (j - length acc)%nat as [| d] eqn:Ed; simpl in Hq;
      [| destruct d; discriminate].
    injection Hq as <-. assert (j = k) by lia. subst j.
    apply plane_at_Ok in Hp0. destruct Hp0 as [_ [[_ Hd] | (Hi & _)]];
      [congruence | lia].
Qed.

Lemma galaxies_of_plane_nonempty (s : list Galaxy) (z : option Q) :
  In z (distinct_redshifts (map redshift s)) -> galaxies_of_plane s z <> [].
Proof.
  rewrite distinct_redshifts_eq. intros Hz. apply distinct_from_In in Hz.
  destruct Hz as [Hz _]. apply in_map_iff in Hz. destruct Hz as (g & <- & Hg).
  rewrite galaxies_of_plane_filter. intros Hnil.
  assert (Hin : In g (filter (fun a => py_eq (redshift a) (redshift g)) s)).
  { apply filter_In. split; [exact Hg | apply py_eq_refl]. }
  rewrite Hnil in Hin. contradiction.
Qed.

Lemma two_redshifts_two_planes (s : list Galaxy) (g1 g2 : Galaxy) :
  In g1 s -> In g2 s -> py_eq (redshift g1) (redshift g2) = false ->
  (2 <= length (distinct_redshifts (map redshift s)))%nat.
Proof.
  intros H1 H2 Hne. rewrite distinct_redshifts_eq.
  assert (Hin : forall g, In g s ->
            py_in (redshift g) (distinct_from [] (map redshift s)) = true).
  { intros g Hg. apply distinct_from_complete; [| reflexivity].
    apply py_in_true. exists (redshift g). split; [| apply py_eq_refl].
    now apply in_map. }
  pose proof (Hin _ H1) as E1. pose proof (Hin _ H2) as E2.
  destruct (distinct_from [] (map redshift s)) as [| z [| z' l]];
    simpl in *; try lia; try discriminate.
  rewrite orb_false_r in E1, E2.
  rewrite py_eq_sym in E2. rewrite (py_eq_trans _ _ _ E1 E2) in Hne.
  discriminate.
Qed.

Lemma MultiTracer_init_total (gs : list Galaxy) (mi : MaskedImage)
  (c : option Cosmology) (g1 g2 : Galaxy) :
  (forall g, In g gs -> redshift g <> None) ->
  In g1 gs -> In g2 gs -> py_eq (redshift g1) (redshift g2) = false ->
  exists t, MultiTracer_init gs mi c = Ok t.
Proof.
  intros Hall H1 H2 Hne.
  destruct (sorted_Ok_of_keys redshift gs Hall) as (s & Hs).
  unfold MultiTracer_init. rewrite Hs. cbn [bind].
  set (order := distinct_redshifts (map redshift s)).
  assert (Hn : (2 <= length order)%nat).
  { apply (two_redshifts_two_planes s g1 g2); try assumption;
      now apply (sorted_In _ _ _ _ Hs). }
  destruct (fold_append_plane_total order (map (galaxies_of_plane s) order)
              mi c (length order) 0 [])
    as (planes & Hplanes); try assumption; try reflexivity.
  - apply length_map.
  - intros j g Hg. rewrite nth_error_map in Hg.
    destruct (nth_error order j) as [z |] eqn:Ez; [| discriminate].
    injection Hg as <-. split.
    + apply galaxies_of_plane_nonempty. exact (nth_error_In _ _ Ez).
    + intros a Ha. rewrite galaxies_of_plane_filter in Ha.
      apply filter_In in Ha. destruct Ha as [Ha _].
      apply Hall. now apply (sorted_In _ _ _ _ Hs).
  - intros [| j] q Hq; discriminate.
  - unfold build_planes. rewrite Hplanes. cbn [bind]. eauto.
Qed.

(** X4.  A galaxy list in which every galaxy has a redshift and two galaxies have
    different redshifts always gives a multi-plane tracer, with or without a
    cosmology; it has two planes or more. *)
Theorem multi_plane_construction_succeeds (gs : list Galaxy)
  (mi : MaskedImage) (c : option Cosmology) (g1 g2 : Galaxy) :
  (forall g, In g gs -> redshift g <> None) ->
  In g1 gs -> In g2 gs -> py_eq (redshift g1) (redshift g2) = false ->
  exists t,
    MultiTracer_init gs mi c = Ok t /\
    (2 <= length (planes t))%nat /\
    length (planes t) = length (planes_redshift_order t).
Proof.
  intros Hall H1 H2 Hne.
  destruct (MultiTracer_init_total gs mi c g1 g2 Hall H1 H2 Hne) as (t & Ht).
  exists t. split; [exact Ht |].
  pose proof (MultiTracer_init_Ok _ _ _ _ Ht) as (Hs & Ho & _ & Hb).
  apply build_planes_Ok in Hb. destruct Hb as [Hlen _].
  split; [| exact Hlen]. rewrite Hlen, Ho.
  apply (two_redshifts_two_planes _ g1 g2); try assumption;
    now apply (sorted_In _ _ _ _ Hs).
Qed.

(** ** How the construction of a multi-plane tracer fails *)

Lemma forallb_false_exists {A : Type} (f : A -> bool) (l : list A) :
  forallb f l = false -> exists a, In a l /\ f a = false.
Proof.
  induction l as [| x l IH]; simpl; [discriminate |].
  destruct (f x) eqn:E; simpl; intros H.
  - destruct (IH H) as (a & Ha & Hf). eauto.
  - eauto.
Qed.

Lemma MultiTracer_init_one_plane (gs s : list Galaxy) (mi : MaskedImage)
  (c : option Cosmology) :
  gs <> [] -> sorted redshift gs = Ok s ->
  (forall g1 g2, In g1 gs -> In g2 gs ->
                 py_eq (redshift g1) (redshift g2) = true) ->
  MultiTracer_init gs mi c = Err IndexError.
Proof.
  intros Hne Hs Hall. unfold MultiTracer_init. rewrite Hs. cbn [bind].
  destruct s as [| x s'].
  { apply sorted_length in Hs. destruct gs; [congruence | discriminate]. }
  assert (Ho : distinct_redshifts (map redshift (x :: s')) = [redshift x]).
  { rewrite distinct_redshifts_eq. simpl.
    rewrite distinct_from_all_seen; [reflexivity |].
    intros a Ha. apply in_map_iff in Ha. destruct Ha as (g & <- & Hg).
    simpl. rewrite orb_false_r.
    apply Hall; apply (sorted_In _ _ _ _ Hs); simpl; auto. }
  rewrite Ho. reflexivity.
Qed.

(** X5.  The construction of a multi-plane tracer fails in two ways only: with
    [TypeError] when there are two galaxies or more and one of them has no
    redshift, and with [IndexError] when the list is not empty and all its
    galaxies have equal redshifts.  Conversely a galaxy without redshift
    among two or more always gives [TypeError], and a single galaxy, or
    galaxies that all have the same redshift, always give [IndexError]. *)
Theorem multi_plane_construction_failures (gs : list Galaxy)
  (mi : MaskedImage) (c : option Cosmology) :
  (forall e, MultiTracer_init gs mi c = Err e ->
     (e = TypeError /\ (2 <= length gs)%nat /\
      exists g, In g gs /\ redshift g = None) \/
     (e = IndexError /\ gs <> [] /\
      forall g1 g2, In g1 gs -> In g2 gs ->
                    py_eq (redshift g1) (redshift g2) = true)) /\
  ((2 <= length gs)%nat -> (exists g, In g gs /\ redshift g = None) ->
   MultiTracer_init gs mi c = Err TypeError) /\
  (gs <> [] ->
   (forall g1 g2, In g1 gs -> In g2 gs ->
                  py_eq (redshift g1) (redshift g2) = true) ->
   length gs = 1%nat \/ (forall g, In g gs -> redshift g <> None) ->
   MultiTracer_init gs mi c = Err IndexError).
Proof.
  split; [| split].
  2:{ intros Hlen (g & Hg & Hnone).
      destruct (sorted redshift gs) as [s | e'] eqn:Hs.
      - exfalso. exact (sorted_Ok_keys _ _ _ _ Hs Hlen g Hg Hnone).
      - pose proof (sorted_Err _ _ _ _ Hs) as ->.
        unfold MultiTracer_init. now rewrite Hs. }
  2:{ intros Hne Hall Hkeys.
      assert (Hs : exists s, sorted redshift gs = Ok s).
      { destruct Hkeys as [Hone | Hkeys];
          [| now apply sorted_Ok_of_keys].
        destruct gs as [| g [| g' l]]; try discriminate.
        exists [g]. reflexivity. }
      destruct Hs as (s & Hs).
      exact (MultiTracer_init_one_plane gs s mi c Hne Hs Hall). }
  intros e H. destruct (sorted redshift gs) as [s | e'] eqn:Hs.
  - right.
    assert (Hne : gs <> []).
    { intros ->. unfold MultiTracer_init in H. simpl in H. discriminate. }
    destruct (forallb (fun g1 => forallb (fun g2 =>
                py_eq (redshift g1) (redshift g2)) gs) gs) eqn:Hb.
    + assert (Hall : forall g1 g2, In g1 gs -> In g2 gs ->
                       py_eq (redshift g1) (redshift g2) = true).
      { intros g1 g2 H1 H2. rewrite forallb_forall in Hb.
        specialize (Hb g1 H1). rewrite forallb_forall in Hb. now apply Hb. }
      rewrite (MultiTracer_init_one_plane gs s mi c Hne Hs Hall) in H.
      injection H as <-. auto.
    + exfalso. apply forallb_false_exists in Hb.
      destruct Hb as (g1 & H1 & Hb). apply forallb_false_exists in Hb.
      destruct Hb as (g2 & H2 & Hb).
      assert (Hlen : (2 <= length gs)%nat).
      { destruct gs as [| a [| b l]]; simpl in *; try lia; try contradiction.
        destruct H1 as [<- | []], H2 as [<- | []].
        rewrite py_eq_refl in Hb. discriminate. }
      destruct (MultiTracer_init_total gs mi c g1 g2) as (t & Ht);
        try assumption; [| congruence].
      exact (sorted_Ok_keys _ _ _ _ Hs Hlen).
  - left. pose proof (sorted_Err _ _ _ _ Hs) as ->.
    unfold MultiTracer_init in H. rewrite Hs in H. simpl in H.
    injection H as <-. split; [reflexivity |]. split.
    + destruct gs as [| a [| b l]]; simpl in *; try discriminate; lia.
    + destruct (forallb (fun g => match redshift g with
                                  | Some _ => true
                                  | None => false
                                  end) gs) eqn:Hb.
      * exfalso. rewrite forallb_forall in Hb.
        destruct (sorted_Ok_of_keys redshift gs) as (s & Hs').
        { intros g Hg. specialize (Hb g Hg).
          destruct (redshift g); [discriminate | discriminate]. }
        congruence.
      * apply forallb_false_exists in Hb. destruct Hb as (g & Hg & Hb).
        exists g. split; [exact Hg |]. destruct (redshift g);
          [discriminate | reflexivity].
Qed.

(** ** The two-plane tracer *)

Lemma Tracer_init_planes (lens source : list Galaxy) (mi : MaskedImage)
  (c : option Cosmology) (t : Tracer) :
  Tracer_init lens source mi c = Ok t ->
  exists l0 s0 grid,
    nth_error lens 0 = Some l0 /\ nth_error source 0 = Some s0 /\
    Plane_init lens mi None (redshift s0) c true = Ok (image_plane t) /\
    Plane_init source grid (redshift l0) None c false = Ok (source_plane t) /\
    tracer_cosmology t = c.
Proof.
  unfold Tracer_init. intros H.
  apply bind_Ok in H. destruct H as (s0 & Hs0 & H).
  apply bind_Ok in H. destruct H as (ip & Hip & H).
  apply bind_Ok in H. destruct H as (g & Hg & H).
  apply bind_Ok in H. destruct H as (l0 & Hl0 & H).
  apply bind_Ok in H. destruct H as (sp & Hsp & H).
  inversion H; subst t. simpl. apply index_Ok in Hs0, Hl0.
  exists l0, s0, g. auto.
Qed.

Lemma Tracer_init_total (l : Galaxy) (lens : list Galaxy) (s : Galaxy)
  (source : list Galaxy) (mi : MaskedImage) (c : option Cosmology) :
  c = None \/ (redshift l <> None /\ redshift s <> None) ->
  exists t, Tracer_init (l :: lens) (s :: source) mi c = Ok t.
Proof.
  intros Hc. unfold Tracer_init. cbn [index nth_error bind].
  destruct (Plane_init_succeeds l lens mi None (redshift s) c true)
    as (ip & Hip); [tauto |].
  rewrite Hip. cbn [bind].
  pose proof (Plane_init_Ok _ _ _ _ _ _ _ Hip) as (_ & _ & Hd).
  unfold trace_to_next_plane. rewrite Hd. cbn [bind].
  match goal with
  | |- context [Plane_init (s :: source) ?g ?pv None c false] =>
      destruct (Plane_init_succeeds s source g pv None c false) as (sp & Hsp);
        [tauto |]
  end.
  rewrite Hsp. cbn [bind]. eauto.
Qed.

(** X6.  A two-plane tracer is constructed exactly when both galaxy lists are
    non-empty and, if a cosmology is given, the first lens galaxy and the
    first source galaxy have a redshift; without a cosmology the redshifts
    may be missing.  It keeps the two lists as the galaxies of its planes.
    With an empty list the construction raises [IndexError]; with a
    cosmology and a first galaxy without redshift it raises the [TypeError]
    of the cosmology. *)
Theorem tracer_construction_outcome (lens source : list Galaxy)
  (mi : MaskedImage) (c : option Cosmology) :
  (lens = [] \/ source = [] ->
   Tracer_init lens source mi c = Err IndexError) /\
  (forall (l0 : Galaxy) (lrest : list Galaxy) (s0 : Galaxy)
          (srest : list Galaxy),
      lens = l0 :: lrest -> source = s0 :: srest ->
      (c = None \/ (redshift l0 <> None /\ redshift s0 <> None) ->
       exists t,
         Tracer_init lens source mi c = Ok t /\
         galaxies (image_plane t) = lens /\
         galaxies (source_plane t) = source /\
         tracer_cosmology t = c) /\
      (c <> None -> redshift l0 = None \/ redshift s0 = None ->
       Tracer_init lens source mi c = Err TypeError)).
Proof.
  split.
  - intros [-> | ->].
    + destruct source as [| s source]; [reflexivity |].
      destruct c as [c |]; reflexivity.
    + reflexivity.
  - intros l0 lrest s0 srest -> ->. split.
    + intros Hc.
      destruct (Tracer_init_total l0 lrest s0 srest mi c Hc) as (t & Ht).
      exists t. split; [exact Ht |].
      pose proof (Tracer_init_planes _ _ _ _ _ Ht)
        as (l1 & s1 & grid & _ & _ & _ & _ & Hcos).
      apply Tracer_init_Ok in Ht. cbv zeta in Ht. tauto.
    + intros Hc Hz. destruct c as [c |]; [| congruence].
      unfold Tracer_init. cbn [index nth_error bind].
      destruct (redshift l0) as [zl |] eqn:El.
      * destruct Hz as [Hz | Hz]; [discriminate |].
        destruct (Plane_init_succeeds l0 lrest mi None (redshift s0)
                    (Some c) true) as (ip & Hip); [right; congruence |].
        rewrite Hip. cbn [bind].
        pose proof (Plane_init_Ok _ _ _ _ _ _ _ Hip) as (_ & _ & Hd).
        unfold trace_to_next_plane. rewrite Hd. cbn [bind].
        unfold Plane_init. cbn [index nth_error bind]. rewrite Hz.
        reflexivity.
      * unfold Plane_init. cbn [index nth_error bind]. rewrite El.
        reflexivity.
Qed.

(** X7.  With a cosmology the two planes of a tracer agree on what lies between
    them: the image plane's distance to the next plane is the source plane's
    distance to the previous plane, and the image plane's distance from the
    next plane to earth is the source plane's distance to earth.  The image
    plane has no previous-plane distance and the source plane no next-plane
    distance and no critical surface density. *)
Theorem tracer_planes_agree_on_distances (lens source : list Galaxy)
  (mi : MaskedImage) (c : Cosmology) (t : Tracer) :
  Tracer_init lens source mi (Some c) = Ok t ->
  exists l0 s0,
    nth_error lens 0 = Some l0 /\ nth_error source 0 = Some s0 /\
    ang_to_previous_plane_kpc (image_plane t) = None /\
    ang_to_next_plane_kpc (source_plane t) = None /\
    critical_density_kpc (source_plane t) = None /\
    (critical_density_kpc (image_plane t) <> None <-> redshift s0 <> None) /\
    (redshift s0 <> None ->
     ang_next_plane_to_earth_kpc (image_plane t)
     = ang_to_earth_kpc (source_plane t)) /\
    (redshift l0 <> None -> redshift s0 <> None ->
     ang_to_next_plane_kpc (image_plane t)
     = Some (angular_diameter_distance_z1z2 c (redshift l0) (redshift s0)) /\
     ang_to_previous_plane_kpc (source_plane t)
     = ang_to_next_plane_kpc (image_plane t)).
Proof.
  intros H. apply Tracer_init_planes in H.
  destruct H as (l0 & s0 & grid & Hl0 & Hs0 & Hip & Hsp & _).
  exists l0, s0. split; [exact Hl0 |]. split; [exact Hs0 |].
  apply Plane_init_cosmology in Hip, Hsp.
  destruct Hip as (g0 & Hg0 & _ & _ & Hiprev & Hinext & Hine & Hicrit).
  destruct Hsp as (g1 & Hg1 & _ & Hse & Hsprev & Hsnext & _ & Hscrit).
  rewrite Hl0 in Hg0. injection Hg0 as <-.
  rewrite Hs0 in Hg1. injection Hg1 as <-.
  split; [exact Hiprev |]. split; [exact Hsnext |].
  split.
  { destruct (critical_density_kpc (source_plane t)); [| reflexivity].
    exfalso. apply (proj1 Hscrit); [discriminate | reflexivity]. }
  split; [exact Hicrit |]. split.
  - intros Hs. rewrite Hine, Hse. destruct (redshift s0); congruence.
  - intros Hl Hs. rewrite Hsprev, Hinext.
    destruct (redshift l0), (redshift s0); try congruence. auto.
Qed.

(** ** Pixelization matrices *)

Lemma generate_pixelization_cases (p : Plane) (mapping : Mapping) :
  generate_pixelization_matrices_of_galaxy p mapping
  = match filter has_pixelization (galaxies p) with
    | [] => Ok None
    | [g] =>
        match pixelization g with
        | Some pix =>
            Ok (Some (inversion_from_pix_masked_image pix
                        (image (masked_image p)) (sub (masked_image p))
                        mapping))
        | None => Err AttributeError
        end
    | _ :: _ :: _ =>
        Err (PixelizationException
               "The number of galaxies with pixelizations in one plane is above 1")
    end.
Proof.
  unfold generate_pixelization_matrices_of_galaxy.
  destruct (filter has_pixelization (galaxies p)) as [| g [| g' l]];
    reflexivity.
Qed.

Lemma filter_has_pixelization_nil (l : list Galaxy) :
  filter has_pixelization l = [] <->
  forall g, In g l -> pixelization g = None.
Proof.
  induction l as [| a l IH]; simpl; [tauto |].
  unfold has_pixelization at 1.
  destruct (pixelization a) as [pix |] eqn:E; split.
  - discriminate.
  - intros H. specialize (H a (or_introl eq_refl)). congruence.
  - intros H g [<- | Hg]; [exact E | now apply IH].
  - intros H. apply IH. intros g Hg. apply H. now right.
Qed.

Lemma filter_has_pixelization_In (l : list Galaxy) (g : Galaxy) :
  In g (filter has_pixelization l) ->
  In g l /\ exists pix, pixelization g = Some pix.
Proof.
  intros H. apply filter_In in H. destruct H as [Hg H]. split; [exact Hg |].
  unfold has_pixelization in H. destruct (pixelization g); [eauto | discriminate].
Qed.

(** X8.  A plane without pixelized galaxy answers [None], which is not an error,
    and only such a plane does; the only error is [PixelizationException],
    raised only when two galaxies or more are pixelized; any matrices
    returned come from the pixelization of the one pixelized galaxy, on the
    plane's own image and sub grids. *)
Theorem pixelization_matrices_outcome (p : Plane) (mapping : Mapping) :
  (generate_pixelization_matrices_of_galaxy p mapping = Ok None <->
   forall g, In g (galaxies p) -> pixelization g = None) /\
  (forall e, generate_pixelization_matrices_of_galaxy p mapping = Err e ->
     (exists msg, e = PixelizationException msg) /\
     (2 <= length (filter has_pixelization (galaxies p)))%nat) /\
  (forall inv, generate_pixelization_matrices_of_galaxy p mapping
               = Ok (Some inv) ->
     exists g pix,
       filter has_pixelization (galaxies p) = [g] /\
       In g (galaxies p) /\ pixelization g = Some pix /\
       inv = inversion_from_pix_masked_image pix (image (masked_image p))
               (sub (masked_image p)) mapping).
Proof.
  rewrite generate_pixelization_cases.
  rewrite <- filter_has_pixelization_nil.
  destruct (filter has_pixelization (galaxies p)) as [| g [| g' l]] eqn:E.
  - split; [tauto |]. split; [intros e H | intros inv H]; discriminate.
  - assert (Hg : In g (filter has_pixelization (galaxies p)))
      by (rewrite E; now left).
    apply filter_has_pixelization_In in Hg. destruct Hg as (Hin & pix & Hpix).
    rewrite Hpix.
    split; [split; discriminate |]. split; [intros e H; discriminate |].
    intros inv H. injection H as <-. exists g, pix. auto.
  - split; [split; discriminate |]. split; [| intros inv H; discriminate].
    intros e H. injection H as <-. split; [eauto | simpl; lia].
Qed.

(** X9.  The pixelization matrices of a two-plane tracer come from the source
    plane alone, on the grids traced from the image plane: the lens galaxies
    are not consulted, so without a pixelized source galaxy the answer is
    [None] even if lens galaxies are pixelized, and matrices that are
    returned belong to a source galaxy. *)
Theorem source_pixelization_ignores_lens (lens source : list Galaxy)
  (mi : MaskedImage) (c : option Cosmology) (t : Tracer) (mapping : Mapping) :
  Tracer_init lens source mi c = Ok t ->
  let traced :=
    traced_masked_image_for_deflections mi
      (deflection_masked_image_for_galaxies mi lens) in
  ((forall g, In g source -> pixelization g = None) ->
   generate_pixelization_matrices_of_source_galaxy t mapping = Ok None) /\
  ((2 <= length (filter has_pixelization source))%nat ->
   exists msg,
     generate_pixelization_matrices_of_source_galaxy t mapping
     = Err (PixelizationException msg)) /\
  (forall inv,
      generate_pixelization_matrices_of_source_galaxy t mapping
      = Ok (Some inv) ->
      exists g pix,
        In g source /\ pixelization g = Some pix /\
        inv = inversion_from_pix_masked_image pix (image traced) (sub traced)
                mapping).
Proof.
  intros H traced. apply Tracer_init_Ok in H. cbv zeta in H.
  destruct H as (_ & _ & _ & Hg & Hm & _).
  unfold generate_pixelization_matrices_of_source_galaxy.
  rewrite generate_pixelization_cases, Hg, Hm. fold traced.
  split; [| split].
  - intros Hnone. apply filter_has_pixelization_nil in Hnone.
    now rewrite Hnone.
  - intros Hlen.
    destruct (filter has_pixelization source) as [| g [| g' l]];
      simpl in Hlen; try lia. eauto.
  - intros inv Hinv.
    destruct (filter has_pixelization source) as [| g [| g' l]] eqn:E;
      try discriminate.
    assert (Hin : In g (filter has_pixelization source))
      by (rewrite E; now left).
    apply filter_has_pixelization_In in Hin. destruct Hin as (Hin & pix & Hpix).
    rewrite Hpix in Hinv. injection Hinv as <-. exists g, pix. auto.
Qed.

(** ** The cosmology does not bend the rays *)

(** X10.  The cosmology does not bend the rays of a two-plane tracer: two
    tracers constructed from the same galaxies and grids, with different
    cosmologies or with and without one, have the same deflections, traced
    grids, images and pixelization matrices.  A tracer that is constructed
    with a cosmology is also constructed with any other cosmology and
    without one; the converse needs the redshifts the cosmology is asked
    about. *)
Theorem tracer_rays_ignore_cosmology (lens source : list Galaxy)
  (mi : MaskedImage) (c c' : option Cosmology) (t : Tracer) :
  Tracer_init lens source mi c = Ok t ->
  (c <> None \/ c' = None ->
   exists t', Tracer_init lens source mi c' = Ok t') /\
  (forall t',
      Tracer_init lens source mi c' = Ok t' ->
      deflections (image_plane t') = deflections (image_plane t) /\
      masked_image (source_plane t') = masked_image (source_plane t) /\
      (forall mapping,
          Tracer_generate_image_of_galaxy_light_profiles t' mapping
          = Tracer_generate_image_of_galaxy_light_profiles t mapping) /\
      Tracer_generate_blurring_image_of_galaxy_light_profiles t'
      = Tracer_generate_blurring_image_of_galaxy_light_profiles t /\
      (forall mapping,
          generate_pixelization_matrices_of_source_galaxy t' mapping
          = generate_pixelization_matrices_of_source_galaxy t mapping)).
Proof.
  intros H. split.
  - intros Hc.
    pose proof (Tracer_init_planes _ _ _ _ _ H)
      as (l0 & s0 & grid & Hl0 & Hs0 & Hip & Hsp & _).
    destruct lens as [| l lens]; [discriminate |].
    destruct source as [| s source]; [discriminate |].
    simpl in Hl0, Hs0. injection Hl0 as <-. injection Hs0 as <-.
    apply Tracer_init_total.
    destruct c' as [c' |]; [| now left]. right.
    destruct c as [c |]; [| destruct Hc; congruence].
    apply Plane_init_with_cosmology in Hip, Hsp.
    destruct Hip as (g0 & Hg0 & Hz0 & _).
    destruct Hsp as (g1 & Hg1 & Hz1 & _).
    simpl in Hg0, Hg1. injection Hg0 as <-. injection Hg1 as <-. auto.
  - intros t' Ht'.
    apply Tracer_init_Ok in H, Ht'. cbv zeta in H, Ht'.
    destruct H as (Hg & Hm & Hd & Hsg & Hsm & Hsd).
    destruct Ht' as (Hg' & Hm' & Hd' & Hsg' & Hsm' & Hsd').
    unfold Tracer_generate_image_of_galaxy_light_profiles,
      Tracer_generate_blurring_image_of_galaxy_light_profiles,
      Plane_generate_image_of_galaxy_light_profiles,
      Plane_generate_blurring_image_of_galaxy_light_profiles,
      generate_pixelization_matrices_of_source_galaxy.
    rewrite Hd, Hd', Hg, Hg', Hm, Hm', Hsg, Hsg', Hsm, Hsm'.
    repeat split; intros mapping; rewrite !generate_pixelization_cases;
      now rewrite Hsg, Hsg', Hsm, Hsm'.
Qed.

Lemma MultiTracer_init_Ok_redshifts (gs : list Galaxy) (mi : MaskedImage)
  (c : option Cosmology) (t : MultiTracer) :
  MultiTracer_init gs mi c = Ok t -> gs <> [] ->
  (forall g, In g gs -> redshift g <> None) /\
  exists g1 g2,
    In g1 gs /\ In g2 gs /\ py_eq (redshift g1) (redshift g2) = false.
Proof.
  intros H Hne.
  pose proof (MultiTracer_init_Ok _ _ _ _ H) as (Hs & _).
  destruct (forallb (fun g1 => forallb (fun g2 =>
              py_eq (redshift g1) (redshift g2)) gs) gs) eqn:Hb.
  - exfalso.
    assert (Hall : forall g1 g2, In g1 gs -> In g2 gs ->
                     py_eq (redshift g1) (redshift g2) = true).
    { intros g1 g2 H1 H2. rewrite forallb_forall in Hb.
      specialize (Hb g1 H1). rewrite forallb_forall in Hb. now apply Hb. }
    rewrite (MultiTracer_init_one_plane gs _ mi c Hne Hs Hall) in H.
    discriminate.
  - apply forallb_false_exists in Hb.
    destruct Hb as (g1 & H1 & Hb). apply forallb_false_exists in Hb.
    destruct Hb as (g2 & H2 & Hb).
    split; [| exists g1, g2; auto].
    apply (sorted_Ok_keys _ _ _ _ Hs).
    destruct gs as [| a [| b l]]; simpl in *; try lia; try contradiction.
    destruct H1 as [<- | []], H2 as [<- | []].
    rewrite py_eq_refl in Hb. discriminate.
Qed.

Lemma MultiTracer_plane_deflections (gs : list Galaxy) (mi : MaskedImage)
  (c : option Cosmology) (t : MultiTracer) (i : nat) (p : Plane) :
  MultiTracer_init gs mi c = Ok t ->
  nth_error (planes t) i = Some p ->
  deflections p
  = if (S i <? length (planes t))%nat
    then Some (deflection_masked_image_for_galaxies (masked_image p)
                 (galaxies p))
    else None.
Proof.
  intros H Hp. destruct (MultiTracer_plane_at _ _ _ _ _ _ H Hp) as [Hlen Hat].
  apply plane_at_Ok in Hat. rewrite Hlen.
  destruct Hat as [_ [[Hi Hd] | (Hi & _ & Hd)]].
  - apply Nat.ltb_lt in Hi. now rewrite Hi.
  - assert (E : (S i <? length (planes_redshift_order t))%nat = false)
      by (apply Nat.ltb_ge; lia).
    now rewrite E.
Qed.

(** X11.  Changing the cosmology of a multi-plane tracer changes neither whether it
    is constructed nor the order of its planes, their galaxies, their grids
    and their deflections. *)
Theorem multi_plane_rays_ignore_cosmology (gs : list Galaxy)
  (mi : MaskedImage) (c c' : option Cosmology) (t : MultiTracer) :
  MultiTracer_init gs mi c = Ok t ->
  exists t',
    MultiTracer_init gs mi c' = Ok t' /\
    planes_redshift_order t' = planes_redshift_order t /\
    map galaxies (planes t') = map galaxies (planes t) /\
    map masked_image (planes t') = map masked_image (planes t) /\
    map deflections (planes t') = map deflections (planes t).
Proof.
  intros H.
  assert (Ht' : exists t', MultiTracer_init gs mi c' = Ok t').
  { destruct gs as [| g gs']; [eexists; reflexivity |].
    destruct (MultiTracer_init_Ok_redshifts _ _ _ _ H)
      as (Hall & g1 & g2 & H1 & H2 & Hne); [discriminate |].
    exact (MultiTracer_init_total _ mi c' g1 g2 Hall H1 H2 Hne). }
  destruct Ht' as (t' & Ht'). exists t'. split; [exact Ht' |].
  pose proof (MultiTracer_init_Ok _ _ _ _ H) as (Hs & Ho & Hgr & Hb).
  pose proof (MultiTracer_init_Ok _ _ _ _ Ht') as (Hs' & Ho' & Hgr' & Hb').
  assert (Es : galaxies_redshift_order t' = galaxies_redshift_order t)
    by congruence.
  assert (Eo : planes_redshift_order t' = planes_redshift_order t)
    by (rewrite Ho, Ho', Es; reflexivity).
  assert (Eg : map galaxies (planes t') = map galaxies (planes t)).
  { rewrite (MultiTracer_planes_galaxies gs mi c t H).
    rewrite (MultiTracer_planes_galaxies gs mi c' t' Ht').
    rewrite Hgr, Hgr', Es, Eo. reflexivity. }
  assert (El : length (planes t') = length (planes t)).
  { apply build_planes_Ok in Hb, Hb'. destruct Hb as [-> _], Hb' as [-> _].
    now rewrite Eo. }
  assert (Egal : forall i p p',
             nth_error (planes t) i = Some p ->
             nth_error (planes t') i = Some p' -> galaxies p' = galaxies p).
  { intros i p p' Hp Hp'.
    assert (E : nth_error (map galaxies (planes t')) i
                = nth_error (map galaxies (planes t)) i) by now rewrite Eg.
    rewrite !nth_error_map, Hp, Hp' in E. simpl in E. congruence. }
  assert (Egrid : forall i p p',
             nth_error (planes t) i = Some p ->
             nth_error (planes t') i = Some p' ->
             masked_image p' = masked_image p).
  { destruct (MultiTracer_chain _ _ _ _ H) as [H0 HS].
    destruct (MultiTracer_chain _ _ _ _ Ht') as [H0' HS'].
    induction i as [| i IH]; intros q q' Hq Hq'.
    - rewrite (H0 _ Hq), (H0' _ Hq'). reflexivity.
    - destruct (nth_error (planes t) i) as [p |] eqn:Hp.
      2:{ apply nth_error_None in Hp.
          assert (nth_error (planes t) (S i) <> None) by congruence.
          apply nth_error_Some in H1. lia. }
      destruct (nth_error (planes t') i) as [p' |] eqn:Hp'.
      2:{ apply nth_error_None in Hp'.
          assert (nth_error (planes t') (S i) <> None) by congruence.
          apply nth_error_Some in H1. lia. }
      destruct (HS i p q Hp Hq) as [Htr Hd].
      destruct (HS' i p' q' Hp' Hq') as [Htr' Hd'].
      unfold trace_to_next_plane in Htr, Htr'. rewrite Hd in Htr.
      rewrite Hd' in Htr'.
      rewrite (IH p p' eq_refl eq_refl), (Egal i p p' Hp Hp') in Htr'.
      congruence. }
  split; [exact Eo |]. split; [exact Eg |]. split.
  - apply nth_error_ext. intros i. rewrite !nth_error_map.
    destruct (nth_error (planes t) i) as [p |] eqn:Hp;
      destruct (nth_error (planes t') i) as [p' |] eqn:Hp'; simpl.
    + now rewrite (Egrid i p p' Hp Hp').
    + apply nth_error_None in Hp'.
      assert (nth_error (planes t) i <> None) by congruence.
      apply nth_error_Some in H0. lia.
    + apply nth_error_None in Hp.
      assert (nth_error (planes t') i <> None) by congruence.
      apply nth_error_Some in H0. lia.
    + reflexivity.
  - apply nth_error_ext. intros i. rewrite !nth_error_map.
    destruct (nth_error (planes t) i) as [p |] eqn:Hp;
      destruct (nth_error (planes t') i) as [p' |] eqn:Hp'; simpl.
    + rewrite (MultiTracer_plane_deflections _ _ _ _ _ _ H Hp).
      rewrite (MultiTracer_plane_deflections _ _ _ _ _ _ Ht' Hp').
      now rewrite El, (Egrid i p p' Hp Hp'), (Egal i p p' Hp Hp').
    + apply nth_error_None in Hp'.
      assert (nth_error (planes t) i <> None) by congruence.
      apply nth_error_Some in H0. lia.
    + apply nth_error_None in Hp.
      assert (nth_error (planes t') i <> None) by congruence.
      apply nth_error_Some in H0. lia.
    + reflexivity.
Qed.

(** ** Two planes: the multi-plane tracer and the two-plane tracer *)

(** The first galaxy of a plane has exactly the plane's redshift. *)
Lemma distinct_from_head {A : Type} (key : A -> option Q)
  (seen : list (option Q)) (s : list A) (z : option Q) :
  In z (distinct_from seen (map key s)) ->
  exists g rest,
    filter (fun a => py_eq (key a) z) s = g :: rest /\ key g = z.
Proof.
  revert seen. induction s as [| x s IH]; intros seen Hz; [contradiction |].
  cbn [map distinct_from] in Hz.
  assert (Hrec : In z (distinct_from (seen ++ [key x]) (map key s)) ->
                 exists g rest,
                   filter (fun a => py_eq (key a) z) (x :: s) = g :: rest /\
                   key g = z).
  { intros Hin. pose proof (distinct_from_In _ _ _ Hin) as [_ Hseen].
    rewrite py_in_snoc in Hseen. apply orb_false_iff in Hseen.
    destruct Hseen as [_ Hne]. rewrite py_eq_sym in Hne.
    cbn [filter]. rewrite Hne. now apply (IH (seen ++ [key x])). }
  destruct (py_in (key x) seen); [now apply Hrec |].
  destruct Hz as [<- | Hz]; [| now apply Hrec].
  cbn [filter]. rewrite py_eq_refl. eauto.
Qed.

(** X12.  A multi-plane tracer with two planes is the two-plane tracer of the
    galaxies of its planes: constructing a [Tracer] from the galaxies of the
    first plane as lens galaxies and those of the second as source galaxies,
    on the same grids and cosmology, succeeds and gives the very same two
    planes. *)
Theorem two_plane_multi_tracer_is_tracer (gs : list Galaxy)
  (mi : MaskedImage) (c : option Cosmology) (t : MultiTracer)
  (p0 p1 : Plane) :
  MultiTracer_init gs mi c = Ok t ->
  planes t = [p0; p1] ->
  Tracer_init (galaxies p0) (galaxies p1) mi c
  = Ok {| tracer_cosmology := c; image_plane := p0; source_plane := p1 |}.
Proof.
  intros H Hplanes.
  pose proof (MultiTracer_init_Ok _ _ _ _ H) as (_ & Ho & Hgr & _).
  assert (Hp0 : nth_error (planes t) 0 = Some p0) by now rewrite Hplanes.
  assert (Hp1 : nth_error (planes t) 1 = Some p1) by now rewrite Hplanes.
  destruct (MultiTracer_plane_at _ _ _ _ _ _ H Hp0) as [Hlen Hat0].
  destruct (MultiTracer_plane_at _ _ _ _ _ _ H Hp1) as [_ Hat1].
  rewrite Hplanes in Hlen. simpl in Hlen.
  apply plane_at_args in Hat0, Hat1.
  destruct Hat0 as (cd0 & prev0 & next0 & grid0 & g0s & Hg0s & Hinit0 & H00
                    & _ & Hlt0 & _).
  destruct Hat1 as (cd1 & prev1 & next1 & grid1 & g1s & Hg1s & Hinit1 & _
                    & HS1 & _ & Hlast1 & _).
  destruct (H00 eq_refl) as [-> ->].
  destruct Hlt0 as [Hnext0 ->]; [lia |].
  destruct Hlast1 as [-> ->]; [lia |].
  destruct HS1 as (Hprev1 & q & Hq & Htrace); [discriminate |].
  rewrite Hplanes in Hq. simpl in Hq. injection Hq as <-.
  pose proof (Plane_init_Ok _ _ _ _ _ _ _ Hinit0) as (Hgal0 & _).
  pose proof (Plane_init_Ok _ _ _ _ _ _ _ Hinit1) as (Hgal1 & _).
  assert (Hhead : forall i z g,
             nth_error (planes_redshift_order t) i = Some z ->
             nth_error (planes_galaxies t) i = Some g ->
             exists g0 rest, g = g0 :: rest /\ redshift g0 = z).
  { intros i z g Hz Hg. rewrite Hgr, nth_error_map, Hz in Hg. simpl in Hg.
    injection Hg as <-. rewrite galaxies_of_plane_filter.
    apply (distinct_from_head redshift []).
    rewrite <- distinct_redshifts_eq, <- Ho. exact (nth_error_In _ _ Hz). }
  destruct (Hhead 0%nat prev1 g0s Hprev1 Hg0s) as (l0 & lrest & El & Hl0).
  destruct (Hhead 1%nat next0 g1s Hnext0 Hg1s) as (s0 & srest & Es & Hs0).
  rewrite Hgal0, Hgal1. unfold Tracer_init.
  rewrite Es. cbn [index nth_error bind]. rewrite <- Es, Hs0, Hinit0.
  cbn [bind]. rewrite Htrace. cbn [bind].
  rewrite El. cbn [index nth_error bind]. rewrite Hl0, Hinit1.
  reflexivity.
Qed.

End Further.

(** ** The further properties on the concrete system *)

Lemma multi_plane_grids_are_chained_witness :
  exists t p q,
    MultiTracer_init [g_a; g_b; g_c] sample_masked_image None = Ok t /\
    planes t = [p; q] /\
    trace_to_next_plane p = Ok (masked_image q).
Proof.
  eexists. eexists. eexists. split; [reflexivity |].
  split; [reflexivity |].
  exact (proj1 (proj2 (multi_plane_grids_are_chained
                         [g_a; g_b; g_c] sample_masked_image None _ eq_refl)
                  0%nat _ _ eq_refl eq_refl)).
Defined.

Lemma multi_plane_cosmology_by_position_witness :
  exists t p,
    MultiTracer_init [g_a; g_b; g_c] sample_masked_image
      (Some sample_cosmology) = Ok t /\
    nth_error (planes t) 0 = Some p /\
    critical_density_kpc p <> None.
Proof.
  eexists. eexists. split; [reflexivity |]. split; [reflexivity |].
  apply (proj1 (proj2 (proj2 (multi_plane_cosmology_by_position
                                [g_a; g_b; g_c] sample_masked_image
                                sample_cosmology _ 0%nat _ eq_refl eq_refl)))).
  simpl. lia.
Defined.

Lemma multi_plane_galaxies_partition_witness :
  exists t,
    MultiTracer_init [g_a; g_b; g_c] sample_masked_image None = Ok t /\
    concat (map galaxies (planes t)) = galaxies_redshift_order t.
Proof.
  eexists. split; [reflexivity |].
  exact (proj1 (multi_plane_galaxies_partition
                  [g_a; g_b; g_c] sample_masked_image None _ eq_refl)).
Defined.

Lemma multi_plane_construction_succeeds_witness :
  exists t,
    MultiTracer_init [g_a; g_b] sample_masked_image (Some sample_cosmology)
    = Ok t /\
    (2 <= length (planes t))%nat.
Proof.
  destruct (multi_plane_construction_succeeds
              [g_a; g_b] sample_masked_image (Some sample_cosmology) g_a g_b)
    as (t & Ht & Hlen & _).
  - intros g [<- | [<- | []]]; discriminate.
  - simpl; auto.
  - simpl; auto.
  - reflexivity.
  - exists t. auto.
Defined.

Lemma multi_plane_construction_failures_witness :
  MultiTracer_init [g_none; g_none] sample_masked_image None = Err TypeError.
Proof.
  apply (proj1 (proj2 (multi_plane_construction_failures
                         [g_none; g_none] sample_masked_image None))).
  - simpl. lia.
  - exists g_none. split; [simpl; auto | reflexivity].
Defined.

Lemma tracer_construction_outcome_witness :
  Tracer_init [g_none] [g_a] sample_masked_image (Some sample_cosmology)
  = Err TypeError.
Proof.
  apply (proj2 (proj2 (tracer_construction_outcome
                         [g_none] [g_a] sample_masked_image
                         (Some sample_cosmology))
                  g_none [] g_a [] eq_refl eq_refl)).
  - discriminate.
  - now left.
Defined.

Lemma tracer_planes_agree_on_distances_witness :
  exists t,
    Tracer_init [g_b] [g_a] sample_masked_image (Some sample_cosmology)
    = Ok t /\
    ang_to_previous_plane_kpc (source_plane t)
    = ang_to_next_plane_kpc (image_plane t).
Proof.
  eexists. split; [reflexivity |].
  destruct (tracer_planes_agree_on_distances
              [g_b] [g_a] sample_masked_image sample_cosmology _ eq_refl)
    as (l0 & s0 & Hl0 & Hs0 & _ & _ & _ & _ & _ & H).
  injection Hl0 as <-. injection Hs0 as <-.
  apply H; discriminate.
Defined.

Lemma pixelization_matrices_outcome_witness :
  exists p,
    Plane_init [g_a; g_b] sample_masked_image None None None false = Ok p /\
    generate_pixelization_matrices_of_galaxy p sample_mapping = Ok None.
Proof.
  eexists. split; [reflexivity |].
  apply (proj1 (pixelization_matrices_outcome _ sample_mapping)).
  intros g [<- | [<- | []]]; reflexivity.
Defined.

Lemma source_pixelization_ignores_lens_witness :
  exists t,
    Tracer_init [g_pix 4 7] [g_a] sample_masked_image None = Ok t /\
    generate_pixelization_matrices_of_source_galaxy t sample_mapping
    = Ok None.
Proof.
  eexists. split; [reflexivity |].
  apply (proj1 (source_pixelization_ignores_lens
                  [g_pix 4 7] [g_a] sample_masked_image None _ sample_mapping
                  eq_refl)).
  intros g [<- | []]; reflexivity.
Defined.

Lemma tracer_rays_ignore_cosmology_witness :
  exists t,
    Tracer_init [g_b] [g_a] sample_masked_image (Some sample_cosmology)
    = Ok t /\
    exists t',
      Tracer_init [g_b] [g_a] sample_masked_image None = Ok t' /\
      masked_image (source_plane t') = masked_image (source_plane t).
Proof.
  eexists. split; [reflexivity |].
  destruct (tracer_rays_ignore_cosmology
              [g_b] [g_a] sample_masked_image (Some sample_cosmology) None
              _ eq_refl)
    as [Hexists Hsame].
  destruct Hexists as (t' & Ht'); [now right |].
  exists t'. split; [exact Ht' |].
  exact (proj1 (proj2 (Hsame t' Ht'))).
Defined.

Lemma multi_plane_rays_ignore_cosmology_witness :
  exists t,
    MultiTracer_init [g_a; g_b; g_c] sample_masked_image None = Ok t /\
    exists t',
      MultiTracer_init [g_a; g_b; g_c] sample_masked_image
        (Some sample_cosmology) = Ok t' /\
      map masked_image (planes t') = map masked_image (planes t).
Proof.
  eexists. split; [reflexivity |].
  destruct (multi_plane_rays_ignore_cosmology
              [g_a; g_b; g_c] sample_masked_image None (Some sample_cosmology)
              _ eq_refl)
    as (t' & Ht' & _ & _ & Hm & _).
  exists t'. auto.
Defined.

Lemma two_plane_multi_tracer_is_tracer_witness :
  exists t p0 p1,
    MultiTracer_init [g_a; g_b; g_c] sample_masked_image
      (Some sample_cosmology) = Ok t /\
    planes t = [p0; p1] /\
    Tracer_init [g_b] [g_a; g_c] sample_masked_image (Some sample_cosmology)
    = Ok {| tracer_cosmology := Some sample_cosmology;
            image_plane := p0; source_plane := p1 |}.
Proof.
  eexists. eexists. eexists. split; [reflexivity |].
  split; [reflexivity |].
  exact (two_plane_multi_tracer_is_tracer
           [g_a; g_b; g_c] sample_masked_image (Some sample_cosmology)
           _ _ _ eq_refl eq_refl).
Defined.
